(** * match_images: identifier matching and grouped copy

    A shallow embedding of [datasets_preprocess/match_images.py] and the
    properties of its matching pass.

    Conventions of the model.
    - A Python [str] is a [string]; a character is a code point below 256,
      so [\d] is the class 0-9 and [str.lower] acts on A-Z and on the
      Latin-1 capitals.
    - [os.path] is [posixpath].
    - A [dict] is a [gmap]; only lookups by key are made, so the insertion
      order of the keys is not observed.
    - The file system is an explicit value ([World]); console output and
      calls to the copy primitive are recorded as a list of [event]s, and
      an exception ends the run with [Raise]. *)

From stdpp Require Import gmap strings list sorting.
From Stdlib Require Import Ascii DecimalString DecimalNat.
From Stdlib Require String.

Set Default Proof Using "Type".
Set Warnings "-register-all,-abstract-large-number".
#[local] Arguments String.append !_ _ / : simpl nomatch.

(** ** Python string methods *)

Module Str.

Definition LF : ascii := "010"%char.

Definition code (c : ascii) : nat := nat_of_ascii c.

(** [c.isdigit()] for a code point below 256, the class [\d]. *)
Definition is_digit (c : ascii) : bool :=
  (48 <=? code c) && (code c <=? 57).

Fixpoint all_digits (s : string) : bool :=
  match s with
  | EmptyString => true
  | String c s' => is_digit c && all_digits s'
  end.

(** [c.lower()]: A-Z, and the Latin-1 capitals other than the
    multiplication sign. *)
Definition lower_char (c : ascii) : ascii :=
  let n := code c in
  if ((65 <=? n) && (n <=? 90))
     || ((192 <=? n) && (n <=? 222) && negb (n =? 215))
  then ascii_of_nat (n + 32) else c.

Fixpoint lower (s : string) : string :=
  match s with
  | EmptyString => EmptyString
  | String c s' => String (lower_char c) (lower s')
  end.

(** [s[i:]] and [s[:i]] for [0 <= i]. *)
Definition slice_from (i : nat) (s : string) : string :=
  String.substring i (String.length s - i) s.
Definition slice_to (i : nat) (s : string) : string :=
  String.substring 0 i s.
(** [s[:-k]] for [0 < k]. *)
Definition drop_last (k : nat) (s : string) : string :=
  slice_to (String.length s - k) s.

Definition startswith (s pre : string) : bool :=
  String.eqb (slice_to (String.length pre) s) pre.

Definition endswith (s suf : string) : bool :=
  (String.length suf <=? String.length s)
  && String.eqb (slice_from (String.length s - String.length suf) s) suf.

(** [s.rfind(c) + 1]: one past the last occurrence, 0 when there is
    none. *)
Fixpoint rfind1 (c : ascii) (s : string) : nat :=
  match s with
  | EmptyString => 0
  | String a s' =>
      match rfind1 c s' with
      | 0 => if Ascii.eqb a c then 1 else 0
      | S k => S (S k)
      end
  end.

(** [s.rstrip(c)] *)
Fixpoint rstrip (c : ascii) (s : string) : string :=
  match s with
  | EmptyString => EmptyString
  | String a s' =>
      match rstrip c s' with
      | EmptyString => if Ascii.eqb a c then EmptyString else String a EmptyString
      | r => String a r
      end
  end.

(** [s.split(c)] *)
Fixpoint split (c : ascii) (s : string) : list string :=
  match s with
  | EmptyString => [EmptyString]
  | String a s' =>
      if Ascii.eqb a c then EmptyString :: split c s'
      else match split c s' with
           | h :: t => String a h :: t
           | [] => [String a EmptyString]
           end
  end.

(** [c * n] *)
Fixpoint times (c : ascii) (n : nat) : string :=
  match n with
  | 0 => EmptyString
  | S n' => String c (times c n')
  end.

(** [str(n)] for a natural number. *)
Definition of_nat (n : nat) : string :=
  NilEmpty.string_of_uint (Nat.to_uint n).

(** [format(n, "04d")] for a natural number: decimal, padded with
    zeros on the left up to width 4. *)
Definition format_04d (n : nat) : string :=
  let s := of_nat n in times "0" (4 - String.length s) +:+ s.

End Str.

(** ** The pattern [(\d+)\.jpg$] *)

Module Re.

(** [\.jpg$] at the current position: the literal, then the end of the
    string or one line feed that ends the string. *)
Definition match_tail (s : string) : bool :=
  String.eqb s ".jpg" || String.eqb s (".jpg" +:+ String Str.LF "").

(** [(\d+)\.jpg$] anchored at the start of [s]; the result is group 1.
    The repetition is greedy: one more digit is tried first, and the
    rest of the pattern only when that fails. *)
Fixpoint match_here (s : string) : option string :=
  match s with
  | EmptyString => None
  | String c s' =>
      if Str.is_digit c then
        match match_here s' with
        | Some g => Some (String c g)
        | None => if match_tail s' then Some (String c "") else None
        end
      else None
  end.

(** [re.search]: the first start position, from the left, at which the
    pattern matches. *)
Fixpoint search (s : string) : option string :=
  match match_here s with
  | Some g => Some g
  | None =>
      match s with
      | EmptyString => None
      | String _ s' => search s'
      end
  end.

End Re.

(** ** [extract_identifier] *)

Definition extract_identifier (filename : string) : option string :=
  match Re.search filename with
  | Some full_id =>
      if 5 <? String.length full_id then Some (Str.drop_last 5 full_id)
      else Some full_id
  | None => None
  end.

(** Truth value of [None] or a [str]. *)
Definition truthy (v : option string) : bool :=
  match v with
  | None => false
  | Some s => negb (String.eqb s "")
  end.

(** ** [os.path] *)

Module PosixPath.

Definition sep : ascii := "/"%char.

Definition join (a b : string) : string :=
  if Str.startswith b "/" then b
  else if String.eqb a "" || Str.endswith a "/" then a +:+ b
  else a +:+ "/" +:+ b.

Definition basename (p : string) : string :=
  let i := Str.rfind1 sep p in
  Str.slice_from i p.

Definition dirname (p : string) : string :=
  let i := Str.rfind1 sep p in
  let head := Str.slice_to i p in
  if negb (String.eqb head "")
     && negb (String.eqb head (Str.times sep (String.length head)))
  then Str.rstrip sep head
  else head.

(** One round of the loop of [normpath] over the components. *)
Definition normpath_step (initial_slashes : nat)
    (new_comps : list string) (comp : string) : list string :=
  if String.eqb comp "" || String.eqb comp "." then new_comps
  else if negb (String.eqb comp "..")
          || ((initial_slashes =? 0) && bool_decide (new_comps = []))
          || (bool_decide (new_comps ≠ [])
              && String.eqb (List.last new_comps "") "..")
  then new_comps ++ [comp]
  else if bool_decide (new_comps ≠ []) then removelast new_comps
  else new_comps.

Definition normpath (path : string) : string :=
  if String.eqb path "" then "."
  else
    let initial_slashes :=
      if Str.startswith path "/" then
        if Str.startswith path "//" && negb (Str.startswith path "///")
        then 2 else 1
      else 0 in
    let comps :=
      fold_left (normpath_step initial_slashes) (Str.split sep path) [] in
    let path := String.concat "/" comps in
    let path := Str.times sep initial_slashes +:+ path in
    if String.eqb path "" then "." else path.

End PosixPath.

(** ** The file system and the effects of a run *)

(** A directory entry: a file (anything [os.walk] lists among the
    non-directories) or a directory with its own entries, in the order in
    which the operating system lists them. A directory that [os.walk]
    does not enter (a symbolic link, a directory that cannot be read) is
    a [Folder] without entries: no file is listed for it. *)
Inductive node : Type :=
| File (name : string)
| Folder (name : string) (entries : list node).

Definition node_name (n : node) : string :=
  match n with
  | File name => name
  | Folder name _ => name
  end.

Definition is_dir (n : node) : bool :=
  match n with
  | File _ => false
  | Folder _ _ => true
  end.

Definition dir_names (entries : list node) : list string :=
  map node_name (List.filter is_dir entries).
Definition file_names (entries : list node) : list string :=
  map node_name (List.filter (λ n, negb (is_dir n)) entries).

(** What the run sees of the file system. A directory that cannot be
    listed, for whatever reason (it does not exist, it is a file, it may
    not be read), is [None]; [makedirs_ok] and [copy2_ok] tell whether
    the call succeeds. *)
Record World : Type := {
  source_dir : option (list node);
  folder1_dir : option (list node);
  folder2_dir : option (list node);
  makedirs_ok : bool;
  copy2_ok : string → string → bool;
}.

(** What a run does to the outside: a call to [os.makedirs] or to
    [shutil.copy2], recorded when it is made, whether it then succeeds or
    raises, and a line printed. *)
Inductive event : Type :=
| Makedirs (path : string)
| Copy2 (src dst : string)
| Print (line : string).

(** The exceptions of a run. [OSError] stands for an instance of
    [OSError]: what [os.makedirs], [os.listdir] and [shutil.copy2] raise
    when they fail, of the subclass that the operating system reports
    ([FileNotFoundError], [NotADirectoryError], [PermissionError],
    [shutil.SameFileError], ...); the subclass is not modelled.
    [IndexError] is what [l[0]] raises on an empty list. *)
Inductive exn : Type :=
| OSError
| IndexError.

Inductive outcome (A : Type) : Type :=
| Ok (a : A)
| Raise (e : exn).
Arguments Ok {A} a.
Arguments Raise {A} e.

(** A computation: the calls and output lines it made, in order, and how
    it ended. *)
Definition M (A : Type) : Type := list event * outcome A.

Global Instance M_ret : MRet M := λ A a, ([], Ok a).
Global Instance M_bind : MBind M := λ A B f m,
  match m with
  | (t, Ok a) => let '(t', r) := f a in (t ++ t', r)
  | (t, Raise e) => (t, Raise e)
  end.

Definition trace {A} (m : M A) : list event := m.1.
Definition result {A} (m : M A) : outcome A := m.2.

Definition raise {A} (e : exn) : M A := ([], Raise e).
Definition print (line : string) : M unit := ([Print line], Ok tt).

(** [for x in xs: s = body(s, x)] *)
Fixpoint for_each {A S} (body : S → A → M S) (xs : list A) (s : S) : M S :=
  match xs with
  | [] => mret s
  | x :: xs' => s' ← body s x; for_each body xs' s'
  end.

(** [enumerate(l)] *)
Definition enumerate {A} (l : list A) : list (nat * A) := imap pair l.

(** [l[0]] *)
Definition item0 {A} (l : list A) : M A :=
  match l with
  | x :: _ => mret x
  | [] => raise IndexError
  end.

(** [os.walk(top)], top-down, where [entries] are the entries of [top]:
    one triple per directory, each directory before its sub-directories. *)
Fixpoint walk_node (top : string) (n : node)
    : list (string * list string * list string) :=
  match n with
  | File _ => []
  | Folder d entries =>
      let root := PosixPath.join top d in
      (root, dir_names entries, file_names entries)
        :: List.flat_map (walk_node root) entries
  end.

Definition walk (top : string) (dir : option (list node))
    : list (string * list string * list string) :=
  match dir with
  | Some entries =>
      (top, dir_names entries, file_names entries)
        :: List.flat_map (walk_node top) entries
  | None => []
  end.

(** [sorted(l)] on strings: the order is total and two names that compare
    equal are the same name, so the result does not depend on the sorting
    algorithm. *)
Definition sorted (l : list string) : list string := merge_sort String.le l.

(** ** [find_matching_images] *)

Definition is_jpg (f : string) : bool := Str.endswith (Str.lower f) ".jpg".

Definition contains (d : gmap string (list string)) (k : string) : bool :=
  bool_decide (is_Some (d !! k)).

(** The body of the inner loop at lines 32-38 and 42-48. *)
Definition index_file (root : string) (folder_dict : gmap string (list string))
    (file : string) : gmap string (list string) :=
  if is_jpg file then
    let truncated_id := extract_identifier file in
    if truthy truncated_id then
      match truncated_id with
      | Some id =>
          let folder_dict :=
            if negb (contains folder_dict id) then <[id := []]> folder_dict
            else folder_dict in
          alter (λ l, l ++ [PosixPath.join root file]) id folder_dict
      | None => folder_dict
      end
    else folder_dict
  else folder_dict.

Definition build_index (triples : list (string * list string * list string))
    : gmap string (list string) :=
  fold_left (λ d '(root, _, files), fold_left (index_file root) files d)
            triples ∅.

Section Program.
Context (w : World).
Context (source_folder folder1 folder2 destination_folder : string).

Definition makedirs (path : string) : M unit :=
  ([Makedirs path], if makedirs_ok w then Ok tt else Raise OSError).

Definition listdir_source : M (list string) :=
  match source_dir w with
  | Some entries => mret (map node_name entries)
  | None => raise OSError
  end.

Definition copy2 (src dst : string) : M unit :=
  ([Copy2 src dst], if copy2_ok w src dst then Ok tt else Raise OSError).

Definition source_list (listing : list string) : list string :=
  List.filter is_jpg (sorted listing).

(** The body of the loop at lines 52-90. *)
Definition process (folder1_dict folder2_dict : gmap string (list string))
    (matches_found : nat) (entry : nat * string) : M nat :=
  let '(index, source_file) := entry in
  let source_path := PosixPath.join source_folder source_file in
  let truncated_id := extract_identifier source_file in
  if negb (truthy truncated_id) then
    print ("Could not extract identifier from " +:+ source_file);;
    mret matches_found
  else
    match truncated_id with
    | None => mret matches_found
    | Some id =>
        match folder1_dict !! id, folder2_dict !! id with
        | Some paths1, Some paths2 =>
            folder1_path ← item0 paths1;
            folder2_path ← item0 paths2;
            (if (1 <? length paths1) || (1 <? length paths2) then
               print ("Multiple matches found for " +:+ id
                      +:+ ", using the first one from each folder")
             else mret tt);;
            let source_folder_name :=
              PosixPath.basename (PosixPath.normpath source_folder) in
            let folder1_name :=
              PosixPath.basename
                (PosixPath.normpath (PosixPath.dirname folder1_path)) in
            let folder2_name :=
              PosixPath.basename
                (PosixPath.normpath (PosixPath.dirname folder2_path)) in
            let new_source_name :=
              Str.format_04d index +:+ "_1_" +:+ source_folder_name +:+ "_"
                +:+ PosixPath.basename source_path in
            let new_folder1_name :=
              Str.format_04d index +:+ "_2_" +:+ folder1_name +:+ "_"
                +:+ PosixPath.basename folder1_path in
            let new_folder2_name :=
              Str.format_04d index +:+ "_3_" +:+ folder2_name +:+ "_"
                +:+ PosixPath.basename folder2_path in
            copy2 source_path
                  (PosixPath.join destination_folder new_source_name);;
            copy2 folder1_path
                  (PosixPath.join destination_folder new_folder1_name);;
            copy2 folder2_path
                  (PosixPath.join destination_folder new_folder2_name);;
            let matches_found := matches_found + 1 in
            print ("Matched and copied files with truncated identifier: "
                   +:+ id);;
            mret matches_found
        | _, _ =>
            print ("No match found for truncated identifier: " +:+ id);;
            mret matches_found
        end
    end.

Definition find_matching_images : M unit :=
  makedirs destination_folder;;
  listing ← listdir_source;
  let source_files := source_list listing in
  let folder1_dict := build_index (walk folder1 (folder1_dir w)) in
  let folder2_dict := build_index (walk folder2 (folder2_dir w)) in
  matches_found ←
    for_each (process folder1_dict folder2_dict) (enumerate source_files) 0;
  print ("Total matches found and processed: " +:+ Str.of_nat matches_found).

End Program.

(** * Vocabulary of the properties *)

(** ** The pattern *)

(** The string made of one line feed. *)
Definition LF_s : string := String Str.LF "".

(** The last character of [s] is a digit. *)
Fixpoint ends_in_digit (s : string) : bool :=
  match s with
  | EmptyString => false
  | String c EmptyString => Str.is_digit c
  | String _ s' => ends_in_digit s'
  end.

(** A name that ends in one or more digits and the literal [.jpg]. *)
Definition ends_in_digits_jpg (s : string) : Prop :=
  ∃ pre D, s = pre +:+ D +:+ ".jpg" ∧ D ≠ "" ∧ Str.all_digits D = true.

(** The same with one line feed after the literal. *)
Definition ends_in_digits_jpg_lf (s : string) : Prop :=
  ∃ pre D, s = pre +:+ D +:+ ".jpg" +:+ LF_s
           ∧ D ≠ "" ∧ Str.all_digits D = true.

(** ** The filter *)

(** [s] ends in a dot and the letters j, p, g, each in either case. *)
Definition ends_in_jpg_any_case (s : string) : Prop :=
  ∃ x a b c,
    s = x +:+ String "." (String a (String b (String c "")))
    ∧ (a = "j" ∨ a = "J")%char
    ∧ (b = "p" ∨ b = "P")%char
    ∧ (c = "g" ∨ c = "G")%char.

(** [c in s] *)
Fixpoint has_char (c : ascii) (s : string) : bool :=
  match s with
  | EmptyString => false
  | String a s' => Ascii.eqb a c || has_char c s'
  end.

(** The value of a digit, and [int(s)] for a string of digits. *)
Definition digit_value (c : ascii) : nat := Str.code c - 48.

Fixpoint dec_value_from (acc : nat) (s : string) : nat :=
  match s with
  | EmptyString => acc
  | String c s' => dec_value_from (10 * acc + digit_value c) s'
  end.

Definition dec_value (s : string) : nat := dec_value_from 0 s.

(** The name [a] comes strictly before the name [b] in the order of
    [sorted]. *)
Definition name_lt (a b : string) : Prop := String.compare a b = Lt.

(** ** The traversal and the candidate index *)

(** The files that [os.walk] lists, each with the directory that holds
    it, in the order of the traversal. *)
Definition enumerated (triples : list (string * list string * list string))
    : list (string * string) :=
  List.flat_map (λ '(root, _, files), map (pair root) files) triples.

(** A listed file goes under [id] in the index. *)
Definition indexed_under (id : string) (rf : string * string) : bool :=
  is_jpg rf.2 && bool_decide (extract_identifier rf.2 = Some id).

(** The full paths of the files that go under [id], in the order of the
    traversal. *)
Definition paths_for (id : string)
    (triples : list (string * list string * list string)) : list string :=
  map (λ rf, PosixPath.join rf.1 rf.2)
      (List.filter (indexed_under id) (enumerated triples)).

(** A sequence of the index after [new] paths were appended to it. *)
Definition extend (o : option (list string)) (new : list string)
    : option (list string) :=
  match new with
  | [] => o
  | _ => Some (default [] o ++ new)
  end.

(** The file [file] lies in the directory of path [root], at any depth
    under the directory [top] whose entries are [entries]. *)
Inductive located : string → list node → string → string → Prop :=
| located_here top entries file :
    In (File file) entries → located top entries top file
| located_below top entries d sub root file :
    In (Folder d sub) entries →
    located (PosixPath.join top d) sub root file →
    located top entries root file.

(** Induction on a directory tree. *)
Fixpoint node_tree_ind (P : node → Prop)
    (HFile : ∀ name, P (File name))
    (HFolder : ∀ name entries, Forall P entries → P (Folder name entries))
    (n : node) : P n :=
  match n with
  | File name => HFile name
  | Folder name entries =>
      HFolder name entries
        ((fix all (l : list node) : Forall P l :=
            match l with
            | [] => List.Forall_nil P
            | x :: l' =>
                List.Forall_cons P x l' (node_tree_ind P HFile HFolder x) (all l')
            end) entries)
  end.

(** No sequence of the index is empty. *)
Definition no_empty (d : gmap string (list string)) : Prop :=
  ∀ id l, d !! id = Some l → l ≠ [].

(** The entries of a directory without what lies below them. *)
Definition shallow (entries : list node) : list node :=
  map (λ n, match n with
            | File name => File name
            | Folder name _ => Folder name []
            end) entries.

(** The world [w] with another source directory. *)
Definition with_source (w : World) (dir : option (list node)) : World :=
  {| source_dir := dir;
     folder1_dir := folder1_dir w;
     folder2_dir := folder2_dir w;
     makedirs_ok := makedirs_ok w;
     copy2_ok := copy2_ok w |}.

(** ** Copies and names *)

(** The calls to the copy primitive among the events, as pairs of a
    source and a destination path. *)
Fixpoint copies (t : list event) : list (string * string) :=
  match t with
  | [] => []
  | Copy2 src dst :: t' => (src, dst) :: copies t'
  | _ :: t' => copies t'
  end.

(** The destination paths of the copies among the events. *)
Definition destinations (t : list event) : list string := map snd (copies t).


(** The name under which the file at [path] is copied for the group
    [index], in slot [slot], [folder] being the directory whose last
    segment names the group. *)
Definition new_name (index : nat) (slot : string) (folder path : string)
    : string :=
  Str.format_04d index +:+ "_" +:+ slot +:+ "_"
    +:+ PosixPath.basename (PosixPath.normpath folder) +:+ "_"
    +:+ PosixPath.basename path.

(** The same name with the last segment of [folder] taken from the path
    as given, without normalising it. *)
Definition literal_name (index : nat) (slot : string) (folder path : string)
    : string :=
  Str.format_04d index +:+ "_" +:+ slot +:+ "_"
    +:+ PosixPath.basename folder +:+ "_" +:+ PosixPath.basename path.

(** The three copies of the group [index]: the source file [f], and the
    files [p1] and [p2] found for it. *)
Definition group_copies (source_folder destination_folder : string)
    (index : nat) (f p1 p2 : string) : list (string * string) :=
  let source_path := PosixPath.join source_folder f in
  [ (source_path,
     PosixPath.join destination_folder
       (new_name index "1" source_folder source_path));
    (p1,
     PosixPath.join destination_folder
       (new_name index "2" (PosixPath.dirname p1) p1));
    (p2,
     PosixPath.join destination_folder
       (new_name index "3" (PosixPath.dirname p2) p2)) ].

(** The destination [d] carries the number [index]. *)
Definition numbered (dst : string) (index : nat) (d : string) : Prop :=
  ∃ s, d = PosixPath.join dst (Str.format_04d index +:+ "_" +:+ s).

(** ** Output lines *)

(** The lines that [find_matching_images] prints. *)
Definition line_no_identifier (f : string) : string :=
  "Could not extract identifier from " +:+ f.
Definition line_no_match (id : string) : string :=
  "No match found for truncated identifier: " +:+ id.
Definition line_multiple (id : string) : string :=
  "Multiple matches found for " +:+ id
    +:+ ", using the first one from each folder".
Definition line_matched (id : string) : string :=
  "Matched and copied files with truncated identifier: " +:+ id.
Definition line_total (n : nat) : string :=
  "Total matches found and processed: " +:+ Str.of_nat n.

(** ** The loop *)

(** The source file [f] has a file in both indices. *)
Definition full_match (d1 d2 : gmap string (list string)) (f : string) : bool :=
  match extract_identifier f with
  | Some id => contains d1 id && contains d2 id
  | None => false
  end.

(** What the loop prints and copies for the entry [(index, f)] when every
    copy succeeds. *)
Definition events_of (src dst : string) (d1 d2 : gmap string (list string))
    (entry : nat * string) : list event :=
  let '(index, f) := entry in
  match extract_identifier f with
  | None => [Print (line_no_identifier f)]
  | Some id =>
      match d1 !! id, d2 !! id with
      | Some (p1 :: l1), Some (p2 :: l2) =>
          (if bool_decide (l1 ≠ [] ∨ l2 ≠ []) then [Print (line_multiple id)]
           else [])
          ++ map (λ c, Copy2 c.1 c.2) (group_copies src dst index f p1 p2)
          ++ [Print (line_matched id)]
      | _, _ => [Print (line_no_match id)]
      end
  end.

(** The loop of the run, over the source list made from [listing]. *)
Definition matching_pass (w : World) (src f1 f2 dst : string)
    (listing : list string) : M nat :=
  for_each
    (process w src dst (build_index (walk f1 (folder1_dir w)))
                       (build_index (walk f2 (folder2_dir w))))
    (enumerate (source_list listing)) 0.

(** ** Example runs *)

Module Example.

(** Two source files listed out of order, one file without identifier,
    one without match and a sub-directory; candidates at several depths,
    two of them for the identifier [000] in the first folder. *)
Definition album : World := {|
  source_dir :=
    Some [File "b_00010001.jpg"; File "a_00020002.jpg";
          File "photo_final.jpg"; File "c_12345.jpg";
          Folder "sub" [File "z_00030003.jpg"]];
  folder1_dir :=
    Some [File "x_00012345.JPG";
          Folder "left" [File "l_00099999.jpg"; File "l_00011111.jpg"]];
  folder2_dir := Some [Folder "right" [Folder "deep" [File "r_00055555.jpg"]]];
  makedirs_ok := true;
  copy2_ok := λ _ _, true;
|}.

(** The two source files of the ordering example, and one candidate for
    their identifier in each folder. *)
Definition pair_of_sources : World := {|
  source_dir := Some [File "b_00010001.jpg"; File "a_00020002.jpg"];
  folder1_dir := Some [File "m_00012345.jpg"];
  folder2_dir := Some [File "n_00054321.jpg"];
  makedirs_ok := true;
  copy2_ok := λ _ _, true;
|}.

End Example.

(** * Properties *)

(** ** Strings *)

Section StringFacts.
Implicit Types (s t u : string) (c : ascii).

Lemma app_nil_r_s s : s +:+ "" = s.
Proof. induction s as [|c s IH]; simpl; [done | by rewrite IH]. Qed.

Lemma app_assoc_s s t u : (s +:+ t) +:+ u = s +:+ (t +:+ u).
Proof. induction s as [|c s IH]; simpl; [done | by rewrite IH]. Qed.

Lemma app_cons_s c s t : String c s +:+ t = String c (s +:+ t).
Proof. done. Qed.

Lemma length_app_s s t :
  String.length (s +:+ t) = String.length s + String.length t.
Proof. induction s as [|c s IH]; simpl; [done | by rewrite IH]. Qed.

Lemma length_zero_s s : String.length s = 0 → s = "".
Proof. by destruct s. Qed.

Lemma substring_all s : String.substring 0 (String.length s) s = s.
Proof. induction s as [|c s IH]; simpl; [done | by rewrite IH]. Qed.

Lemma substring_app_l s t :
  String.substring 0 (String.length s) (s +:+ t) = s.
Proof.
  induction s as [|c s IH]; simpl; [by destruct t | by rewrite IH].
Qed.

Lemma substring_app_r s t n :
  String.substring (String.length s) n (s +:+ t) = String.substring 0 n t.
Proof. induction s as [|c s IH]; simpl; done. Qed.

(** Every string is its first [n] characters followed by the rest. *)
Lemma substring_split s n :
  n ≤ String.length s →
  s = String.substring 0 n s
      +:+ String.substring n (String.length s - n) s.
Proof.
  revert n. induction s as [|c s IH]; intros [|n] Hn; simpl in *;
    try done; try lia.
  - by rewrite substring_all.
  - f_equal. apply IH. lia.
Qed.

Lemma length_substring_0 s n :
  n ≤ String.length s → String.length (String.substring 0 n s) = n.
Proof.
  revert n. induction s as [|c s IH]; intros [|n] Hn; simpl in *;
    try done; try lia.
  f_equal. apply IH. lia.
Qed.

Lemma slice_from_app s t :
  Str.slice_from (String.length s) (s +:+ t) = t.
Proof.
  unfold Str.slice_from. rewrite length_app_s, substring_app_r.
  replace (String.length s + String.length t - String.length s)
    with (String.length t) by lia.
  apply substring_all.
Qed.

Lemma endswith_app s suf : Str.endswith (s +:+ suf) suf = true.
Proof.
  unfold Str.endswith. rewrite length_app_s.
  replace (String.length s + String.length suf - String.length suf)
    with (String.length s) by lia.
  rewrite slice_from_app, String.eqb_refl, andb_true_r.
  apply Nat.leb_le. lia.
Qed.

Lemma endswith_inv s suf :
  Str.endswith s suf = true → ∃ pre, s = pre +:+ suf.
Proof.
  unfold Str.endswith, Str.slice_from.
  intros [Hlen Heq%String.eqb_eq]%andb_true_iff.
  apply Nat.leb_le in Hlen.
  exists (String.substring 0 (String.length s - String.length suf) s).
  etrans; [apply (substring_split s
                    (String.length s - String.length suf)); lia|].
  by rewrite Heq.
Qed.

Lemma startswith_app s pre : Str.startswith (pre +:+ s) pre = true.
Proof.
  unfold Str.startswith, Str.slice_to.
  by rewrite substring_app_l, String.eqb_refl.
Qed.

Lemma lower_app s t : Str.lower (s +:+ t) = Str.lower s +:+ Str.lower t.
Proof. induction s as [|c s IH]; simpl; [done | by rewrite IH]. Qed.

Lemma all_digits_app s t :
  Str.all_digits (s +:+ t) = Str.all_digits s && Str.all_digits t.
Proof.
  induction s as [|c s IH]; simpl; [done|].
  by rewrite IH, andb_assoc.
Qed.

Lemma all_digits_substring s n m :
  Str.all_digits s = true → Str.all_digits (String.substring n m s) = true.
Proof.
  revert n m. induction s as [|c s IH]; intros [|n] [|m] H; simpl in *;
    try done.
  - apply andb_true_iff in H as [-> H]. simpl. by apply IH.
  - apply andb_true_iff in H as [_ H]. by apply IH.
  - apply andb_true_iff in H as [_ H]. by apply IH.
Qed.

(** Two runs of digits, each followed by a character that is not a
    digit, agree when the whole strings do. *)
Lemma digits_prefix_inj s t c c' u u' :
  Str.all_digits s = true → Str.all_digits t = true →
  Str.is_digit c = false → Str.is_digit c' = false →
  s +:+ String c u = t +:+ String c' u' →
  s = t ∧ c = c' ∧ u = u'.
Proof.
  revert t. induction s as [|a s IH]; intros [|b t] Hs Ht Hc Hc' Heq;
    simpl in *; simplify_eq.
  - done.
  - apply andb_true_iff in Ht as [Ht _]. congruence.
  - apply andb_true_iff in Hs as [Hs _]. congruence.
  - apply andb_true_iff in Hs as [_ Hs].
    apply andb_true_iff in Ht as [_ Ht].
    destruct (IH t Hs Ht Hc Hc' H) as (-> & -> & ->). done.
Qed.

End StringFacts.

(** ** The pattern and [extract_identifier] *)

Section Pattern.
Implicit Types (s t g D pre : string) (c : ascii).

Lemma match_tail_inv t :
  Re.match_tail t = true → t = ".jpg" ∨ t = ".jpg" +:+ LF_s.
Proof.
  unfold Re.match_tail.
  intros [H%String.eqb_eq | H%String.eqb_eq]%orb_true_iff; auto.
Qed.

Lemma match_tail_intro t :
  t = ".jpg" ∨ t = ".jpg" +:+ LF_s → Re.match_tail t = true.
Proof. by intros [-> | ->]. Qed.

Lemma match_tail_not_here t :
  Re.match_tail t = true → Re.match_here t = None.
Proof. by intros [-> | ->]%match_tail_inv. Qed.

Lemma match_here_digits D t :
  D ≠ "" → Str.all_digits D = true → Re.match_tail t = true →
  Re.match_here (D +:+ t) = Some D.
Proof.
  intros HD Hd Ht. induction D as [|c D IH]; [done|].
  simpl in *. apply andb_true_iff in Hd as [-> Hd].
  destruct D as [|c' D].
  - simpl. by rewrite (match_tail_not_here t Ht), Ht.
  - by rewrite IH.
Qed.

Lemma match_here_inv s g :
  Re.match_here s = Some g →
  g ≠ "" ∧ Str.all_digits g = true
  ∧ ∃ t, s = g +:+ t ∧ Re.match_tail t = true.
Proof.
  revert g. induction s as [|c s IH]; intros g H; simpl in H; [done|].
  destruct (Str.is_digit c) eqn:Hc; [|done].
  destruct (Re.match_here s) as [g'|] eqn:Hs.
  - simplify_eq. destruct (IH g' eq_refl) as (_ & Hd & t & -> & Ht).
    split; [done|]. split; [by simpl; rewrite Hc|]. by exists t.
  - destruct (Re.match_tail s) eqn:Ht; simplify_eq.
    split; [done|]. split; [by simpl; rewrite Hc|]. by exists s.
Qed.

Lemma search_cons c s :
  Re.search (String c s) =
    match Re.match_here (String c s) with
    | Some g => Some g
    | None => Re.search s
    end.
Proof. done. Qed.

Lemma search_inv s g :
  Re.search s = Some g →
  g ≠ "" ∧ Str.all_digits g = true
  ∧ ∃ pre t, s = pre +:+ g +:+ t ∧ Re.match_tail t = true.
Proof.
  induction s as [|c s IH]; [done|]. rewrite search_cons.
  destruct (Re.match_here (String c s)) as [g'|] eqn:Hm; intros H.
  - simplify_eq. destruct (match_here_inv _ _ Hm) as (? & ? & t & -> & ?).
    do 2 (split; [done|]). by exists "", t.
  - destruct (IH H) as (? & ? & pre & t & -> & ?).
    do 2 (split; [done|]). by exists (String c pre), t.
Qed.

Lemma search_complete pre D t :
  D ≠ "" → Str.all_digits D = true → Re.match_tail t = true →
  is_Some (Re.search (pre +:+ D +:+ t)).
Proof.
  intros HD Hd Ht. induction pre as [|c pre IH].
  - simpl. destruct D as [|c D]; [done|]. rewrite app_cons_s, search_cons.
    rewrite <-app_cons_s, match_here_digits by done. eauto.
  - rewrite app_cons_s, search_cons.
    destruct (Re.match_here _); eauto.
Qed.

Lemma search_digits D t :
  D ≠ "" → Str.all_digits D = true → Re.match_tail t = true →
  Re.search (D +:+ t) = Some D.
Proof.
  intros HD Hd Ht. destruct D as [|c D]; [done|].
  rewrite app_cons_s, search_cons.
  by rewrite <-app_cons_s, match_here_digits.
Qed.

Lemma ends_in_digit_cons c pre :
  ends_in_digit (String c pre) = false → ends_in_digit pre = false.
Proof. by destruct pre. Qed.

(** A run of digits that starts a string is shorter than any prefix of
    the string that does not end in a digit. *)
Lemma digits_before_non_digit g t x r :
  Str.all_digits g = true → x ≠ "" → ends_in_digit x = false →
  g +:+ t = x +:+ r → String.length g < String.length x.
Proof.
  revert x. induction g as [|d g IH]; intros [|c x] Hg Hx He Heq;
    try done; simpl in *; [lia|].
  simplify_eq. apply andb_true_iff in Hg as [Hd Hg].
  destruct x as [|c' x]; [congruence|].
  apply ->Nat.succ_lt_mono. by apply IH.
Qed.

Lemma length_match_tail t :
  Re.match_tail t = true → 4 ≤ String.length t ≤ 5.
Proof. intros [-> | ->]%match_tail_inv; simpl; lia. Qed.

Lemma match_here_blocked x D t :
  x ≠ "" → ends_in_digit x = false → D ≠ "" → Re.match_tail t = true →
  Re.match_here (x +:+ D +:+ t) = None.
Proof.
  intros Hx He HD Ht.
  destruct (Re.match_here _) as [g|] eqn:Hm; [|done].
  destruct (match_here_inv _ _ Hm) as (_ & Hg & t' & Heq & Ht').
  pose proof (digits_before_non_digit _ _ _ _ Hg Hx He (eq_sym Heq)) as Hlt.
  apply (f_equal String.length) in Heq. rewrite !length_app_s in Heq.
  apply length_match_tail in Ht, Ht'.
  destruct D; [done|]. simpl in Heq. lia.
Qed.

Lemma search_after_prefix pre D t :
  ends_in_digit pre = false →
  D ≠ "" → Str.all_digits D = true → Re.match_tail t = true →
  Re.search (pre +:+ D +:+ t) = Some D.
Proof.
  intros He HD Hd Ht. induction pre as [|c pre IH].
  - change (Re.search (D +:+ t) = Some D). by apply search_digits.
  - rewrite app_cons_s, search_cons, <-app_cons_s.
    rewrite match_here_blocked by done.
    apply IH. by eapply ends_in_digit_cons.
Qed.

Lemma extract_identifier_None s :
  extract_identifier s = None ↔ Re.search s = None.
Proof.
  unfold extract_identifier. destruct (Re.search s); [|done].
  by destruct (_ <? _).
Qed.

Lemma drop_last_split D k :
  k ≤ String.length D →
  ∃ tl, String.length tl = k ∧ D = Str.drop_last k D +:+ tl.
Proof.
  intros Hk. unfold Str.drop_last, Str.slice_to.
  exists (String.substring (String.length D - k)
            (String.length D - (String.length D - k)) D).
  split; [|apply substring_split; lia].
  pose proof (substring_split D (String.length D - k) ltac:(lia)) as H.
  apply (f_equal String.length) in H.
  rewrite length_app_s, length_substring_0 in H by lia. lia.
Qed.

Lemma extract_identifier_Some s id :
  extract_identifier s = Some id → id ≠ "" ∧ Str.all_digits id = true.
Proof.
  unfold extract_identifier.
  destruct (Re.search s) as [g|] eqn:Hs; [|done].
  destruct (search_inv _ _ Hs) as (Hne & Hd & _).
  destruct (5 <? String.length g) eqn:Hlen; intros ?; simplify_eq; [|done].
  apply Nat.ltb_lt in Hlen. split.
  - intros Hid.
    assert (String.length (Str.drop_last 5 g) = String.length g - 5) as Hl
      by (apply length_substring_0; lia).
    rewrite Hid in Hl. simpl in Hl. lia.
  - by apply all_digits_substring.
Qed.

End Pattern.

(** C1. For a non-empty run of digits [D], the name [D.jpg] yields [D]
    without its last five characters when [D] has more than five, and [D]
    itself otherwise; so does every name made of [D.jpg] after a prefix
    that does not end in a digit, and [img00012345.jpg] yields [000]. *)
Theorem extract_identifier_truncation (D : string) :
  D ≠ "" → Str.all_digits D = true →
  extract_identifier (D +:+ ".jpg")
    = Some (if 5 <? String.length D then Str.drop_last 5 D else D)
  ∧ (5 < String.length D →
     ∃ last5, String.length last5 = 5 ∧ D = Str.drop_last 5 D +:+ last5)
  ∧ (String.length D ≤ 5 → extract_identifier (D +:+ ".jpg") = Some D)
  ∧ (∀ pre,
       ends_in_digit pre = false →
       extract_identifier (pre +:+ D +:+ ".jpg")
       = Some (if 5 <? String.length D then Str.drop_last 5 D else D))
  ∧ extract_identifier "img00012345.jpg" = Some "000".
Proof.
  intros HD Hd.
  assert (∀ pre,
            ends_in_digit pre = false →
            extract_identifier (pre +:+ D +:+ ".jpg")
            = Some (if 5 <? String.length D then Str.drop_last 5 D else D))
    as E.
  { intros pre Hpre. unfold extract_identifier.
    rewrite search_after_prefix by done.
    by destruct (5 <? String.length D). }
  split; [apply (E "" eq_refl)|]. split; [|split; [|done]].
  - intros Hlen. apply drop_last_split. lia.
  - intros Hlen. etrans; [apply (E "" eq_refl)|].
    by destruct (Nat.ltb_spec 5 (String.length D)); [lia|].
Qed.

Lemma extract_identifier_truncation_witness :
  extract_identifier ("20240117" +:+ ".jpg") = Some "202"
  ∧ extract_identifier ("4711" +:+ ".jpg") = Some "4711"
  ∧ extract_identifier ("scan_" +:+ "20240117" +:+ ".jpg") = Some "202".
Proof.
  split; [|split].
  - exact (proj1 (extract_identifier_truncation "20240117"
                    ltac:(discriminate) eq_refl)).
  - exact (proj1 (extract_identifier_truncation "4711"
                    ltac:(discriminate) eq_refl)).
  - exact (proj1 (proj2 (proj2 (proj2
             (extract_identifier_truncation "20240117"
                ltac:(discriminate) eq_refl)))) "scan_" eq_refl).
Defined.

(** C9. [extract_identifier] returns [None] or a non-empty string of
    digits, never the empty string; the truth value of its result, which
    guards both the indexer and the matcher, is [true] exactly when the
    result is not [None]. *)
Theorem extract_identifier_never_empty (filename : string) :
  (extract_identifier filename = None
   ∨ ∃ id, extract_identifier filename = Some id
           ∧ id ≠ "" ∧ Str.all_digits id = true)
  ∧ extract_identifier filename ≠ Some ""
  ∧ truthy (extract_identifier filename)
    = bool_decide (extract_identifier filename ≠ None)
  ∧ negb (truthy (extract_identifier filename))
    = bool_decide (extract_identifier filename = None).
Proof.
  destruct (extract_identifier filename) as [id|] eqn:E.
  - destruct (extract_identifier_Some _ _ E) as [Hne Hd].
    split; [right; eauto|]. split; [congruence|].
    simpl. apply String.eqb_neq in Hne. rewrite Hne. done.
  - split; [by left|]. done.
Qed.

Lemma ends_in_digits_jpg_endswith s :
  ends_in_digits_jpg s → Str.endswith s ".jpg" = true.
Proof.
  intros (pre & D & -> & _). rewrite <-app_assoc_s. apply endswith_app.
Qed.

Lemma search_None_iff s :
  Re.search s = None ↔ ¬ (ends_in_digits_jpg s ∨ ends_in_digits_jpg_lf s).
Proof.
  split.
  - intros Hs [(pre & D & -> & HD & Hd) | (pre & D & -> & HD & Hd)].
    + destruct (search_complete pre D ".jpg" HD Hd eq_refl) as [g Hg].
      congruence.
    + destruct (search_complete pre D (".jpg" +:+ LF_s) HD Hd eq_refl)
        as [g Hg].
      congruence.
  - intros Hn. destruct (Re.search s) as [g|] eqn:Hs; [|done].
    destruct (search_inv _ _ Hs) as (HD & Hd & pre & t & -> & Ht).
    destruct Hn. apply match_tail_inv in Ht as [-> | ->].
    + left. by exists pre, g.
    + right. by exists pre, g.
Qed.

(** The last character of a name that passes the caller's filter is [g]
    or [G], so the name does not end in a line feed. *)
Lemma is_jpg_not_lf s : is_jpg (s +:+ LF_s) = false.
Proof.
  unfold is_jpg. rewrite lower_app.
  destruct (Str.endswith _ _) eqn:E; [|done].
  apply endswith_inv in E as [pre E].
  assert (∀ a b c d, a +:+ String c "" = b +:+ String d "" → c = d) as Hlast.
  { clear. induction a as [|x a IH]; intros [|y b] c d H; simpl in *;
      simplify_eq; try done.
    - by destruct b.
    - by destruct a.
    - eauto. }
  change (".jpg") with ("." +:+ "j" +:+ "p" +:+ "g") in E.
  rewrite <-!app_assoc_s in E. apply Hlast in E. done.
Qed.

(** C6, counterexample. A name that ends in a line feed does not end in
    [.jpg], and yet an identifier is extracted from it. *)
Lemma extract_identifier_line_feed :
  extract_identifier ("7.jpg" +:+ LF_s) = Some "7"
  ∧ ¬ ends_in_digits_jpg ("7.jpg" +:+ LF_s)
  ∧ ¬ (extract_identifier ("7.jpg" +:+ LF_s) = None
       ↔ ¬ ends_in_digits_jpg ("7.jpg" +:+ LF_s)).
Proof.
  assert (¬ ends_in_digits_jpg ("7.jpg" +:+ LF_s)) as Hn.
  { intros H%ends_in_digits_jpg_endswith. done. }
  split; [done|]. split; [done|].
  intros [_ H]. by specialize (H Hn).
Qed.

(** C6, amended. [extract_identifier] returns [None] exactly for the names
    that do not end in one or more digits, the literal [.jpg] and then
    nothing or one line feed; on the names that pass the caller's filter
    this is exactly the names that do not end in digits and [.jpg]. The
    literal is case-sensitive: [photo_final.jpg] and [IMG_0042.JPG], which
    passes the filter, both yield [None]. *)
Theorem extract_identifier_None_iff (filename : string) :
  (extract_identifier filename = None
   ↔ ¬ (ends_in_digits_jpg filename ∨ ends_in_digits_jpg_lf filename))
  ∧ (is_jpg filename = true →
     (extract_identifier filename = None ↔ ¬ ends_in_digits_jpg filename))
  ∧ extract_identifier "photo_final.jpg" = None
  ∧ is_jpg "IMG_0042.JPG" = true
  ∧ extract_identifier "IMG_0042.JPG" = None.
Proof.
  split; [|split; [|done]].
  - by rewrite extract_identifier_None, search_None_iff.
  - intros Hjpg. rewrite extract_identifier_None, search_None_iff.
    split; [tauto|]. intros Hn [H | (pre & D & -> & _)]; [done|].
    rewrite <-!app_assoc_s, is_jpg_not_lf in Hjpg. done.
Qed.

Lemma extract_identifier_None_iff_witness :
  is_jpg "photo_final.jpg" = true
  ∧ (extract_identifier "photo_final.jpg" = None
     ↔ ¬ ends_in_digits_jpg "photo_final.jpg").
Proof.
  split; [reflexivity|].
  exact (proj1 (proj2 (extract_identifier_None_iff "photo_final.jpg"))
           eq_refl).
Defined.

(** ** The candidate index *)

Section Index.
Implicit Types (d : gmap string (list string)) (id root file : string).

Lemma extend_extend o a b : extend (extend o a) b = extend o (a ++ b).
Proof.
  destruct a as [|x a]; [done|]. destruct b as [|y b]; simpl.
  - by rewrite app_nil_r.
  - by rewrite <-app_assoc.
Qed.

Lemma index_file_lookup root d file id :
  index_file root d file !! id
  = extend (d !! id)
      (if indexed_under id (root, file) then [PosixPath.join root file]
       else []).
Proof.
  unfold index_file, indexed_under. simpl.
  destruct (is_jpg file); [|done]. simpl.
  destruct (extract_identifier file) as [id'|] eqn:E; [|done].
  destruct (extract_identifier_Some _ _ E) as [Hne _].
  simpl. apply String.eqb_neq in Hne. rewrite Hne. simpl.
  unfold contains. destruct (decide (id' = id)) as [->|Hid].
  - rewrite (bool_decide_eq_true_2 (Some id = Some id)) by done.
    rewrite lookup_alter_eq.
    destruct (d !! id) as [l|] eqn:Hl.
    + rewrite (bool_decide_eq_true_2 (is_Some (Some l))) by eauto.
      simpl. by rewrite Hl.
    + rewrite (bool_decide_eq_false_2 (is_Some None)) by (by intros [? ?]).
      simpl. by rewrite lookup_insert_eq.
  - rewrite (bool_decide_eq_false_2 (Some id' = Some id)) by congruence.
    rewrite lookup_alter_ne by done.
    destruct (negb _); [by rewrite lookup_insert_ne|done].
Qed.

Lemma index_files_lookup root files d id :
  fold_left (index_file root) files d !! id
  = extend (d !! id)
      (map (λ rf, PosixPath.join rf.1 rf.2)
           (List.filter (indexed_under id) (map (pair root) files))).
Proof.
  revert d. induction files as [|file files IH]; intros d; [done|].
  simpl fold_left. rewrite IH, index_file_lookup, extend_extend.
  simpl. by destruct (indexed_under id (root, file)).
Qed.

Lemma build_index_from triples d id :
  fold_left (λ d '(root, _, files), fold_left (index_file root) files d)
            triples d !! id
  = extend (d !! id) (paths_for id triples).
Proof.
  revert d. induction triples as [|[[root ds] files] triples IH];
    intros d; [done|].
  simpl fold_left. rewrite IH, index_files_lookup, extend_extend.
  unfold paths_for, enumerated. simpl.
  by rewrite List.filter_app, map_app.
Qed.

Lemma build_index_lookup triples id :
  build_index triples !! id = extend None (paths_for id triples).
Proof. apply build_index_from. Qed.

(** No sequence of the index is empty. *)
Lemma build_index_nonempty triples id l :
  build_index triples !! id = Some l → l ≠ [].
Proof.
  rewrite build_index_lookup. destruct (paths_for id triples); [done|].
  simpl. by intros [= <-].
Qed.

End Index.

(** ** The traversal *)

Section Walk.
Implicit Types (top root file : string) (entries : list node) (n : node).

Lemma enumerated_app (a b : list (string * list string * list string)) :
  enumerated (a ++ b) = enumerated a ++ enumerated b.
Proof. unfold enumerated. apply flat_map_app. Qed.

Lemma file_names_In file entries :
  In file (file_names entries) ↔ In (File file) entries.
Proof.
  unfold file_names. rewrite in_map_iff. split.
  - intros (n & <- & [Hn Hd]%filter_In). by destruct n.
  - intros H. exists (File file). split; [done|]. by apply filter_In.
Qed.

Lemma walk_node_Folder top d sub :
  walk_node top (Folder d sub) = walk (PosixPath.join top d) (Some sub).
Proof. done. Qed.

Lemma enumerated_walk top entries root file :
  In (root, file) (enumerated (walk top (Some entries)))
  ↔ (root = top ∧ In (File file) entries)
    ∨ ∃ n, In n entries ∧ In (root, file) (enumerated (walk_node top n)).
Proof.
  unfold walk.
  change (enumerated (?x :: ?l)) with (enumerated ([x] ++ l)).
  rewrite enumerated_app, in_app_iff.
assert (In (root, file)
           (enumerated [(top, dir_names entries, file_names entries)])
        ↔ root = top ∧ In (File file) entries) as ->.
{ unfold enumerated. simpl. rewrite app_nil_r, in_map_iff.
  setoid_rewrite file_names_In. split.
  - by intros (f & [= <- <-] & Hf).
  - intros [-> Hf]. eauto. }
assert (In (root, file) (enumerated (flat_map (walk_node top) entries))
        ↔ ∃ n, In n entries ∧ In (root, file) (enumerated (walk_node top n)))
  as ->; [|done].
unfold enumerated. rewrite !in_flat_map. split.
- intros ([[r ds] fs] & (n & Hn & Hw)%in_flat_map & Hin).
  exists n. split; [done|]. apply in_flat_map. eauto.
- intros (n & Hn & ([[r ds] fs] & Hw & Hin)%in_flat_map).
  exists (r, ds, fs). split; [|done]. apply in_flat_map. eauto.
Qed.

Lemma located_enumerated top entries root file :
  located top entries root file →
  In (root, file) (enumerated (walk top (Some entries))).
Proof.
  induction 1 as [top entries file Hin | top entries d sub root file Hin _ IH].
  - apply enumerated_walk. by left.
  - apply enumerated_walk. right. exists (Folder d sub). split; [done|].
    by rewrite walk_node_Folder.
Qed.

Lemma enumerated_located_node n :
  ∀ top root file,
    In (root, file) (enumerated (walk_node top n)) →
    ∃ d sub, n = Folder d sub ∧ located (PosixPath.join top d) sub root file.
Proof.
  induction n as [name | name entries IH] using node_tree_ind;
    intros top root file Hin; [done|].
  exists name, entries. split; [done|].
  rewrite walk_node_Folder in Hin.
  apply enumerated_walk in Hin as [[-> Hin] | (n & Hn & Hin)].
  - by apply located_here.
  - rewrite Forall_forall in IH.
    destruct (IH n ltac:(by apply list_elem_of_In) _ _ _ Hin)
      as (d & sub & -> & Hloc).
    by eapply located_below.
Qed.

Lemma enumerated_located top entries root file :
  In (root, file) (enumerated (walk top (Some entries))) →
  located top entries root file.
Proof.
  intros [[-> Hin] | (n & Hn & Hin)]%enumerated_walk.
  - by apply located_here.
  - destruct (enumerated_located_node n _ _ _ Hin) as (d & sub & -> & Hloc).
    by eapply located_below.
Qed.

End Walk.

(** ** Computations *)

Section Computations.
Context {A B : Type}.
Implicit Types (m : M A) (f : A → M B).

Lemma trace_bind m f :
  trace (m ≫= f)
  = trace m ++ match result m with
               | Ok a => trace (f a)
               | Raise _ => []
               end.
Proof.
  destruct m as [t [a|e]]; simpl; [|by rewrite app_nil_r].
  unfold trace. by destruct (f a).
Qed.

Lemma result_bind m f :
  result (m ≫= f)
  = match result m with
    | Ok a => result (f a)
    | Raise e => Raise e
    end.
Proof.
  destruct m as [t [a|e]]; simpl; [|done].
  unfold result. by destruct (f a).
Qed.

Lemma bind_Ok t a f : (t, Ok a) ≫= f = ((t ++ trace (f a)), result (f a)).
Proof. simpl. by destruct (f a). Qed.

Lemma copies_app (t t' : list event) : copies (t ++ t') = copies t ++ copies t'.
Proof.
  induction t as [|[] t IH]; simpl; [done|done| |done]. by rewrite IH.
Qed.

Lemma copies_of_copies (l : list (string * string)) :
  copies (map (λ c, Copy2 c.1 c.2) l) = l.
Proof. induction l as [|[] l IH]; simpl; [done | by rewrite IH]. Qed.

Lemma copies_In (t : list event) src dst :
  In (src, dst) (copies t) ↔ In (Copy2 src dst) t.
Proof.
  induction t as [|e t IH]; simpl; [done|].
  destruct e; simpl; rewrite IH; intuition congruence.
Qed.

End Computations.

(** ** One source file *)

Section Process.
Context (w : World) (src dst : string).
Context (d1 d2 : gmap string (list string)).
Implicit Types (n index : nat) (f id : string).

Lemma process_no_identifier n index f :
  extract_identifier f = None →
  process w src dst d1 d2 n (index, f)
  = ([Print (line_no_identifier f)], Ok n).
Proof. intros E. unfold process. by rewrite E. Qed.

Lemma process_no_match n index f id :
  extract_identifier f = Some id →
  d1 !! id = None ∨ d2 !! id = None →
  process w src dst d1 d2 n (index, f) = ([Print (line_no_match id)], Ok n).
Proof.
  intros E H. unfold process. rewrite E.
  destruct (extract_identifier_Some _ _ E) as [Hne%String.eqb_neq _].
  simpl. rewrite Hne. simpl.
  destruct H as [-> | ->]; [done|]. by destruct (d1 !! id).
Qed.

Lemma process_match n index f id p1 l1 p2 l2 :
  extract_identifier f = Some id →
  d1 !! id = Some (p1 :: l1) → d2 !! id = Some (p2 :: l2) →
  let c := group_copies src dst index f p1 p2 in
  let ok k := from_option (λ c, copy2_ok w c.1 c.2) false (c !! k) in
  process w src dst d1 d2 n (index, f)
  = ((if bool_decide (l1 ≠ [] ∨ l2 ≠ []) then [Print (line_multiple id)]
      else [])
     ++ map (λ c, Copy2 c.1 c.2)
            (take (if ok 0 then if ok 1 then 3 else 2 else 1) c)
     ++ (if ok 0 && ok 1 && ok 2 then [Print (line_matched id)] else []),
     if ok 0 && ok 1 && ok 2 then Ok (n + 1) else Raise OSError).
Proof.
  intros E H1 H2. unfold process. rewrite E.
  destruct (extract_identifier_Some _ _ E) as [Hne%String.eqb_neq _].
  simpl. rewrite Hne, H1, H2. simpl.
  destruct l1 as [|q1 l1], l2 as [|q2 l2]; simpl;
    repeat (destruct (copy2_ok w _ _); simpl); done.
Qed.

End Process.

(** ** Numbers in names *)

Section Numbers.
Implicit Types (n m : nat) (s : string).

Lemma all_digits_times_0 k : Str.all_digits (Str.times "0" k) = true.
Proof. induction k as [|k IH]; simpl; [done | by rewrite IH]. Qed.

Lemma all_digits_of_uint (u : Decimal.uint) :
  Str.all_digits (NilEmpty.string_of_uint u) = true.
Proof. induction u; simpl; by rewrite ?IHu. Qed.

Lemma all_digits_format_04d n : Str.all_digits (Str.format_04d n) = true.
Proof.
  unfold Str.format_04d, Str.of_nat.
  by rewrite all_digits_app, all_digits_times_0, all_digits_of_uint.
Qed.

Lemma length_times c k : String.length (Str.times c k) = k.
Proof. induction k as [|k IH]; simpl; [done | by rewrite IH]. Qed.

(** Reading a padded number back: the zeros in front do not count. *)
Lemma uint_of_padded k (u : Decimal.uint) :
  ∃ v, NilEmpty.uint_of_string (Str.times "0" k +:+ NilEmpty.string_of_uint u)
       = Some v
       ∧ Nat.of_uint v = Nat.of_uint u.
Proof.
  induction k as [|k (v & Hv & Hn)]; simpl.
  - exists u. by rewrite NilEmpty.usu.
  - exists (Decimal.D0 v). by rewrite Hv.
Qed.

Lemma format_04d_inj n m : Str.format_04d n = Str.format_04d m → n = m.
Proof.
  unfold Str.format_04d, Str.of_nat. intros H.
  destruct (uint_of_padded
              (4 - String.length (NilEmpty.string_of_uint (Nat.to_uint n)))
              (Nat.to_uint n)) as (v & Hv & Hn).
  destruct (uint_of_padded
              (4 - String.length (NilEmpty.string_of_uint (Nat.to_uint m)))
              (Nat.to_uint m)) as (v' & Hv' & Hm).
  rewrite H, Hv' in Hv. simplify_eq.
  rewrite !Unsigned.of_to in *. congruence.
Qed.

Lemma length_format_04d n :
  String.length (Str.format_04d n) = 4 `max` String.length (Str.of_nat n).
Proof. unfold Str.format_04d. rewrite length_app_s, length_times. lia. Qed.

(** The number of a name is what stands before its first underscore. *)
Lemma numbered_name_inj n m s s' :
  Str.format_04d n +:+ "_" +:+ s = Str.format_04d m +:+ "_" +:+ s' →
  n = m ∧ s = s'.
Proof.
  intros H.
  destruct (digits_prefix_inj _ _ "_" "_" s s'
              (all_digits_format_04d n) (all_digits_format_04d m)
              eq_refl eq_refl H) as (Hf & _ & Hs).
  split; [by apply format_04d_inj | done].
Qed.

End Numbers.

(** ** Paths *)

Section Paths.
Implicit Types (a b name : string).

Lemma join_relative a b :
  Str.startswith b "/" = false →
  PosixPath.join a b
  = a +:+ (if String.eqb a "" || Str.endswith a "/" then "" else "/") +:+ b.
Proof.
  intros H. unfold PosixPath.join. rewrite H.
  by destruct (String.eqb a "" || Str.endswith a "/").
Qed.

Lemma startswith_digit s c :
  Str.is_digit c = true → Str.startswith (String c s) "/" = false.
Proof.
  intros Hc. unfold Str.startswith, Str.slice_to. simpl.
  destruct (Ascii.eqb_spec c "/") as [-> | Hne]; [done|]. by destruct s.
Qed.

Lemma format_04d_cons n :
  ∃ c s, Str.format_04d n = String c s ∧ Str.is_digit c = true.
Proof.
  pose proof (length_format_04d n) as Hl.
  pose proof (all_digits_format_04d n) as Hd.
  destruct (Str.format_04d n) as [|c s]; simpl in *; [lia|].
  apply andb_true_iff in Hd as [Hc _]. eauto.
Qed.

(** A numbered name is relative, so joining it to the destination folder
    keeps it apart from every other numbered name. *)
Lemma join_numbered_inj a n m s s' :
  PosixPath.join a (Str.format_04d n +:+ "_" +:+ s)
  = PosixPath.join a (Str.format_04d m +:+ "_" +:+ s') →
  n = m ∧ s = s'.
Proof.
  destruct (format_04d_cons n) as (c & t & En & Hc).
  destruct (format_04d_cons m) as (c' & t' & Em & Hc').
  rewrite !join_relative
    by (rewrite ?En, ?Em; simpl; by eapply startswith_digit).
  intros H. apply (inj (String.append a)) in H.
  apply (inj (String.append _)) in H. by apply numbered_name_inj.
Qed.

End Paths.

(** ** The loop over the source files *)

Section ForEach.
Context {A S : Type} (body : S → A → M S).
Implicit Types (x : A) (xs : list A) (s : S).

Lemma for_each_cons x xs s :
  for_each body (x :: xs) s = body s x ≫= for_each body xs.
Proof. done. Qed.

Lemma for_each_app xs ys s :
  for_each body (xs ++ ys) s = for_each body xs s ≫= for_each body ys.
Proof.
  revert s. induction xs as [|x xs IH]; intros s.
  - simpl. by destruct (for_each body ys s).
  - rewrite <-app_comm_cons, !for_each_cons.
    destruct (body s x) as [t [s'|e]]; [|done].
    rewrite !bind_Ok, IH. unfold trace, result.
    destruct (for_each body xs s') as [t' [s''|e']]; simpl.
    + destruct (for_each body ys s''). simpl. by rewrite app_assoc.
    + done.
Qed.

Lemma for_each_trace_In xs s e :
  In e (trace (for_each body xs s)) →
  ∃ x s', In x xs ∧ In e (trace (body s' x)).
Proof.
  revert s. induction xs as [|x xs IH]; intros s; [done|].
  rewrite for_each_cons, trace_bind, in_app_iff. intros [H | H].
  - exists x, s. split; [by left | done].
  - destruct (result (body s x)) as [s'|]; [|done].
    destruct (IH _ H) as (y & s'' & ? & ?). exists y, s''.
    split; [by right | done].
Qed.

End ForEach.

Section Loop.
Context (w : World) (src dst : string).
Context (d1 d2 : gmap string (list string)).
Implicit Types (n index : nat) (f id : string).

Lemma process_index_error n index f id l1 l2 :
  extract_identifier f = Some id →
  d1 !! id = Some l1 → d2 !! id = Some l2 → l1 = [] ∨ l2 = [] →
  process w src dst d1 d2 n (index, f) = ([], Raise IndexError).
Proof.
  intros E H1 H2 H. unfold process. rewrite E.
  destruct (extract_identifier_Some _ _ E) as [Hne%String.eqb_neq _].
  simpl. rewrite Hne, H1, H2. simpl.
  destruct H as [-> | ->]; [done|]. by destruct l1.
Qed.

(** The copies made for a source file that has a file in both indices:
    the first one, two or three copies of its group. *)
Lemma process_match_copies n index f id p1 l1 p2 l2 :
  extract_identifier f = Some id →
  d1 !! id = Some (p1 :: l1) → d2 !! id = Some (p2 :: l2) →
  ∃ k, 1 ≤ k ≤ 3
       ∧ copies (trace (process w src dst d1 d2 n (index, f)))
         = take k (group_copies src dst index f p1 p2).
Proof.
  intros E H1 H2.
  rewrite (process_match _ _ _ _ _ _ _ _ id p1 l1 p2 l2) by done.
  unfold trace. cbn [fst]. rewrite !copies_app, copies_of_copies.
  set (c := group_copies src dst index f p1 p2).
  match goal with |- context [take ?k0 c] => set (k := k0) end.
  exists k. split.
  - unfold k. repeat destruct (from_option _ _ _); lia.
  - destruct (bool_decide _), (_ && _); simpl; by rewrite app_nil_r.
Qed.

(** The notice is printed exactly when one of the two sequences has more
    than one path. *)
Lemma process_match_notice n index f id p1 l1 p2 l2 :
  extract_identifier f = Some id →
  d1 !! id = Some (p1 :: l1) → d2 !! id = Some (p2 :: l2) →
  In (Print (line_multiple id))
     (trace (process w src dst d1 d2 n (index, f)))
  ↔ l1 ≠ [] ∨ l2 ≠ [].
Proof.
  intros E H1 H2.
  rewrite (process_match _ _ _ _ _ _ _ _ id p1 l1 p2 l2) by done.
  unfold trace. cbn [fst]. rewrite !in_app_iff.
  assert (∀ l, ¬ In (Print (line_multiple id))
                    (map (λ c : string * string, Copy2 c.1 c.2) l)) as Hc.
  { intros l (c & Hc & _)%in_map_iff. done. }
  split.
  - intros [H | [H | H]].
    + destruct (bool_decide_reflect (l1 ≠ [] ∨ l2 ≠ [])); [done|].
      by destruct H.
    + by destruct (Hc _ H).
    + destruct (_ && _); [|done]. by destruct H as [[= H] | []].
  - intros H. left. rewrite bool_decide_eq_true_2 by done. by left.
Qed.

(** The copies made for one source file: none, or the first one, two or
    three copies of its group. *)
Lemma process_copies n index f :
  copies (trace (process w src dst d1 d2 n (index, f))) = []
  ∨ ∃ p1 p2 k,
      1 ≤ k ≤ 3
      ∧ copies (trace (process w src dst d1 d2 n (index, f)))
        = take k (group_copies src dst index f p1 p2).
Proof.
  destruct (extract_identifier f) as [id|] eqn:E;
    [|left; by rewrite process_no_identifier].
  destruct (d1 !! id) as [l1|] eqn:H1;
    [|left; by rewrite (process_no_match _ _ _ _ _ _ _ _ id); auto].
  destruct (d2 !! id) as [l2|] eqn:H2;
    [|left; by rewrite (process_no_match _ _ _ _ _ _ _ _ id); auto].
  destruct l1 as [|p1 l1];
    [left; by rewrite (process_index_error _ _ _ id [] l2); auto|].
  destruct l2 as [|p2 l2];
    [left; by rewrite (process_index_error _ _ _ id (p1 :: l1) []); auto|].
  right. exists p1, p2. by eapply process_match_copies.
Qed.

End Loop.

(** ** The whole run *)

Section Run.
Context (w : World) (src f1 f2 dst : string).

Lemma run_makedirs_fails :
  makedirs_ok w = false →
  find_matching_images w src f1 f2 dst = ([Makedirs dst], Raise OSError).
Proof. intros H. unfold find_matching_images, makedirs. by rewrite H. Qed.

Lemma run_listdir_fails :
  makedirs_ok w = true → source_dir w = None →
  find_matching_images w src f1 f2 dst
  = ([Makedirs dst], Raise OSError).
Proof.
  intros H1 H2. unfold find_matching_images, makedirs, listdir_source.
  by rewrite H1, H2.
Qed.

Lemma run_pass entries :
  makedirs_ok w = true → source_dir w = Some entries →
  find_matching_images w src f1 f2 dst
  = let pass := matching_pass w src f1 f2 dst (map node_name entries) in
    (Makedirs dst
       :: trace pass ++ match result pass with
                        | Ok n => [Print (line_total n)]
                        | Raise _ => []
                        end,
     match result pass with
     | Ok n => Ok tt
     | Raise e => Raise e
     end).
Proof.
  intros H1 H2. unfold find_matching_images, makedirs, listdir_source.
  rewrite H1, H2. unfold mbind, M_bind, mret, M_ret. cbn beta iota.
  fold (matching_pass w src f1 f2 dst (map node_name entries)).
  destruct (matching_pass _ _ _ _ _ _) as [t [n|e]]; simpl; [done|].
  by rewrite app_nil_r.
Qed.

(** The copies of a run are those of its loop. *)
Lemma run_copies :
  copies (trace (find_matching_images w src f1 f2 dst)) = []
  ∨ ∃ entries,
      source_dir w = Some entries
      ∧ copies (trace (find_matching_images w src f1 f2 dst))
        = copies (trace (matching_pass w src f1 f2 dst
                           (map node_name entries))).
Proof.
  destruct (makedirs_ok w) eqn:H1; [|left; by rewrite run_makedirs_fails].
  destruct (source_dir w) as [entries|] eqn:H2;
    [|left; by rewrite run_listdir_fails].
  right. exists entries. split; [done|].
  rewrite (run_pass entries) by done. cbn zeta. unfold trace at 1. cbn [fst].
  change (Makedirs dst :: ?t) with ([Makedirs dst] ++ t).
  rewrite !copies_app. simpl.
  destruct (result _); simpl; by rewrite app_nil_r.
Qed.

End Run.

(** ** Distinct destinations *)

Section Distinct.
Context (w : World) (src dst : string).
Context (d1 d2 : gmap string (list string)).
Implicit Types (n index : nat) (f d : string).

Lemma numbered_inj i j d : numbered dst i d → numbered dst j d → i = j.
Proof.
  intros [s ->] [s' H]. by destruct (join_numbered_inj _ _ _ _ _ H).
Qed.

Lemma group_copies_numbered index f p1 p2 c :
  In c (group_copies src dst index f p1 p2) → numbered dst index c.2.
Proof.
  unfold group_copies, new_name, numbered.
  intros [<- | [<- | [<- | []]]]; cbn [snd]; eexists; reflexivity.
Qed.

Lemma group_copies_NoDup index f p1 p2 :
  NoDup (map snd (group_copies src dst index f p1 p2)).
Proof.
  unfold group_copies, new_name. cbn [map snd].
  repeat (apply NoDup_cons; split);
    [| |apply not_elem_of_nil|apply NoDup_nil_2].
  - rewrite !elem_of_cons, elem_of_nil.
    intros [H | [H | []]]; apply join_numbered_inj in H as [_ H];
      cbn [String.append] in H; discriminate.
  - rewrite !elem_of_cons, elem_of_nil.
    intros [H | []]; apply join_numbered_inj in H as [_ H];
      cbn [String.append] in H; discriminate.
Qed.

Lemma process_destinations n index f :
  NoDup (destinations (trace (process w src dst d1 d2 n (index, f))))
  ∧ ∀ d, In d (destinations (trace (process w src dst d1 d2 n (index, f)))) →
         numbered dst index d.
Proof.
  unfold destinations.
  destruct (process_copies w src dst d1 d2 n index f)
    as [-> | (p1 & p2 & k & _ & ->)].
  - split; [constructor | done].
  - split.
    + eapply sublist_NoDup; [apply (group_copies_NoDup index f p1 p2)|].
      rewrite <-(take_drop k (group_copies _ _ _ _ _ _)) at 2.
      rewrite map_app. apply sublist_inserts_r. done.
    + intros d (c & <- & Hc)%in_map_iff.
      apply (group_copies_numbered index f p1 p2).
      apply list_elem_of_In. eapply elem_of_sublist; [|apply (sublist_take _ k)].
      by apply list_elem_of_In.
Qed.

Lemma for_each_destinations (xs : list (nat * string)) n :
  NoDup (map fst xs) →
  NoDup (destinations (trace (for_each (process w src dst d1 d2) xs n)))
  ∧ ∀ d, In d (destinations
                 (trace (for_each (process w src dst d1 d2) xs n))) →
         ∃ index, In index (map fst xs) ∧ numbered dst index d.
Proof.
  revert n. induction xs as [|[index f] xs IH]; intros n Hnd.
  - split; [constructor | done].
  - simpl in Hnd. apply NoDup_cons in Hnd as [Hnew Hnd].
    rewrite for_each_cons, trace_bind. unfold destinations.
    rewrite copies_app, map_app.
    destruct (process_destinations n index f) as [Hp Hpn].
    fold (destinations (trace (process w src dst d1 d2 n (index, f)))).
    destruct (result (process w src dst d1 d2 n (index, f))) as [n'|].
    + destruct (IH n' Hnd) as [Hl Hln].
      fold (destinations (trace (for_each (process w src dst d1 d2) xs n'))).
      split.
      * apply NoDup_app. split; [done|]. split; [|done].
        intros d Hd%list_elem_of_In Hd'%list_elem_of_In.
        destruct (Hln d Hd') as (j & Hj & Hnj).
        rewrite (numbered_inj _ _ _ (Hpn d Hd) Hnj) in Hnew.
        by apply Hnew, list_elem_of_In.
      * intros d [Hd | Hd]%in_app_iff.
        -- exists index. split; [by left | auto].
        -- destruct (Hln d Hd) as (j & Hj & Hnj). exists j.
           split; [by right | done].
    + simpl. rewrite app_nil_r. split; [done|].
      intros d Hd. exists index. split; [by left | auto].
Qed.

End Distinct.

Section Enumerate.
Context {A : Type}.
Implicit Types (l : list A) (x : A) (i : nat).

Lemma imap_fst_seq (g : nat → A → nat * A) k l :
  (∀ i x, (g i x).1 = k + i) → map fst (imap g l) = seq k (length l).
Proof.
  revert g k. induction l as [|x l IH]; intros g k Hg; [done|].
  rewrite imap_cons. simpl. rewrite Hg, Nat.add_0_r. f_equal.
  apply IH. intros i y. simpl. rewrite Hg. lia.
Qed.

Lemma enumerate_fst l : map fst (enumerate l) = seq 0 (length l).
Proof. by apply imap_fst_seq. Qed.

Lemma imap_snd (g : nat → A → nat * A) l :
  (∀ i x, (g i x).2 = x) → map snd (imap g l) = l.
Proof.
  revert g. induction l as [|x l IH]; intros g Hg; [done|].
  rewrite imap_cons. simpl. rewrite Hg. f_equal. apply IH.
  intros i y. apply Hg.
Qed.

Lemma enumerate_snd l : map snd (enumerate l) = l.
Proof. by apply imap_snd. Qed.

Lemma enumerate_NoDup l : NoDup (map fst (enumerate l)).
Proof. rewrite enumerate_fst. apply NoDup_seq. Qed.

Lemma enumerate_In l i x : In (i, x) (enumerate l) ↔ l !! i = Some x.
Proof.
  unfold enumerate. rewrite <-list_elem_of_In, elem_of_lookup_imap. split.
  - by intros (j & y & [= -> ->] & H).
  - intros H. by exists i, x.
Qed.

Lemma enumerate_split l i x :
  l !! i = Some x →
  enumerate l
  = enumerate (take i l) ++ (i, x) :: imap (λ j, pair (S i + j)) (drop (S i) l).
Proof.
  intros H. unfold enumerate.
  rewrite <-(take_drop_middle l i x H) at 1.
  rewrite imap_app, imap_cons.
  assert (length (take i l) = i) as ->.
  { apply length_take_le, Nat.lt_le_incl, (lookup_lt_Some _ _ _ H). }
  rewrite Nat.add_0_r. do 2 f_equal.
  apply imap_ext. intros j y _. simpl. f_equal. lia.
Qed.

End Enumerate.

(** C10. The destinations of the copies of one run are pairwise distinct:
    the three of one group differ in the slot digit, and two names with
    different numbers differ, whatever follows the number; so no copy of
    a run overwrites an earlier copy of the same run. *)
Theorem destinations_pairwise_distinct (w : World) (src f1 f2 dst : string) :
  NoDup (destinations (trace (find_matching_images w src f1 f2 dst)))
  ∧ (∀ index f p1 p2, NoDup (map snd (group_copies src dst index f p1 p2)))
  ∧ (∀ i j s s',
       i ≠ j →
       PosixPath.join dst (Str.format_04d i +:+ "_" +:+ s)
       ≠ PosixPath.join dst (Str.format_04d j +:+ "_" +:+ s')).
Proof.
  split; [|split].
  - unfold destinations.
    destruct (run_copies w src f1 f2 dst) as [-> | (entries & _ & ->)];
      [constructor|].
    apply for_each_destinations, enumerate_NoDup.
  - intros. apply group_copies_NoDup.
  - intros i j s s' Hij H. by destruct (join_numbered_inj _ _ _ _ _ H).
Qed.

Lemma destinations_pairwise_distinct_witness :
  NoDup (destinations
           (trace (find_matching_images Example.album
                     "data/src/" "f1" "f2/" "out")))
  ∧ PosixPath.join "out" (Str.format_04d 9999 +:+ "_" +:+ "1_a_x.jpg")
    ≠ PosixPath.join "out" (Str.format_04d 10000 +:+ "_" +:+ "1_a_x.jpg").
Proof.
  destruct (destinations_pairwise_distinct Example.album
              "data/src/" "f1" "f2/" "out") as (H & _ & Hne).
  split; [exact H|]. apply Hne. by vm_compute.
Defined.

Lemma shallow_names entries :
  map node_name (shallow entries) = map node_name entries.
Proof.
  unfold shallow. rewrite map_map. apply map_ext. by intros [].
Qed.

(** C7. A candidate index is built from every file at any depth under
    its root: the sequence of an identifier is made of the full paths, in
    the order of the traversal, of the files whose name passes the
    case-insensitive filter and yields that identifier, and is absent
    when there is none; the other files are left out, without an event
    of any kind. The source folder is read one level deep only. *)
Theorem candidate_index_spec (top : string) (entries : list node)
    (id : string) :
  let triples := walk top (Some entries) in
  (∀ root file,
     located top entries root file ↔ In (root, file) (enumerated triples))
  ∧ build_index triples !! id
    = match paths_for id triples with
      | [] => None
      | paths => Some paths
      end
  ∧ (∀ path,
       In path (paths_for id triples)
       ↔ ∃ root file,
           In (root, file) (enumerated triples)
           ∧ path = PosixPath.join root file
           ∧ is_jpg file = true
           ∧ extract_identifier file = Some id)
  ∧ (∀ w src f1 f2 dst es,
       makedirs_ok w = true → source_dir w = Some es →
       source_list (map node_name es) = [] →
       find_matching_images w src f1 f2 dst
       = ([Makedirs dst; Print (line_total 0)], Ok tt))
  ∧ (∀ w src f1 f2 dst es,
       source_dir w = Some es →
       find_matching_images (with_source w (Some (shallow es))) src f1 f2 dst
       = find_matching_images w src f1 f2 dst).
Proof.
  cbn zeta. split; [|split; [|split; [|split]]].
  - intros root file. split.
    + apply located_enumerated.
    + apply enumerated_located.
  - rewrite build_index_lookup. by destruct (paths_for _ _).
  - intros path. unfold paths_for. rewrite in_map_iff. split.
    + intros ([root file] & <- & [Hin Hid]%filter_In).
      unfold indexed_under in Hid. simpl in Hid.
      apply andb_true_iff in Hid as [Hjpg Hid%bool_decide_eq_true].
      by exists root, file.
    + intros (root & file & Hin & -> & Hjpg & Hid).
      exists (root, file). split; [done|]. apply filter_In. split; [done|].
      unfold indexed_under. simpl. rewrite Hjpg. simpl.
      by apply bool_decide_eq_true.
  - intros w src f1 f2 dst es Hm Hs Hl.
    rewrite (run_pass w src f1 f2 dst es) by done.
    unfold matching_pass. by rewrite Hl.
  - intros w src f1 f2 dst es Hs.
    unfold find_matching_images, listdir_source. simpl.
    by rewrite Hs, shallow_names.
Qed.

Lemma candidate_index_spec_witness :
  located "f1" [File "x_00012345.JPG";
                Folder "left" [File "l_00099999.jpg"; File "l_00011111.jpg"]]
          "f1/left" "l_00011111.jpg"
  ∧ build_index (walk "f1" (folder1_dir Example.album)) !! "000"
    = Some ["f1/left/l_00099999.jpg"; "f1/left/l_00011111.jpg"]
  ∧ find_matching_images
      (with_source Example.album (Some [File "notes.txt"; Folder "sub" []]))
      "data/src/" "f1" "f2/" "out"
    = ([Makedirs "out"; Print (line_total 0)], Ok tt).
Proof.
  destruct (candidate_index_spec "f1"
              [File "x_00012345.JPG";
               Folder "left" [File "l_00099999.jpg"; File "l_00011111.jpg"]]
              "000") as (Hloc & Hidx & _ & Hquiet & _).
  split; [|split].
  - apply Hloc. vm_compute. tauto.
  - exact Hidx.
  - by apply (Hquiet _ _ _ _ _ [File "notes.txt"; Folder "sub" []]).
Defined.

(** ** Runs in which the copy primitive does not fail *)

Section AllCopied.
Context (w : World) (src dst : string).
Context (d1 d2 : gmap string (list string)).
Context (Hcopy : ∀ s d, copy2_ok w s d = true).
Context (Hd1 : no_empty d1) (Hd2 : no_empty d2).
Implicit Types (n index : nat) (f id : string).

Lemma full_match_true f :
  full_match d1 d2 f = true ↔
  ∃ id p1 l1 p2 l2,
    extract_identifier f = Some id
    ∧ d1 !! id = Some (p1 :: l1) ∧ d2 !! id = Some (p2 :: l2).
Proof using Hd1 Hd2.
  unfold full_match, contains. split.
  - destruct (extract_identifier f) as [id|]; [|done].
    intros [[l1 H1]%bool_decide_eq_true [l2 H2]%bool_decide_eq_true]
      %andb_true_iff.
    destruct l1 as [|p1 l1]; [by destruct (Hd1 _ _ H1)|].
    destruct l2 as [|p2 l2]; [by destruct (Hd2 _ _ H2)|].
    by exists id, p1, l1, p2, l2.
  - intros (id & p1 & l1 & p2 & l2 & -> & H1 & H2).
    rewrite H1, H2. apply andb_true_iff.
    split; apply bool_decide_eq_true; eauto.
Qed.

Lemma full_match_false f id :
  extract_identifier f = Some id → full_match d1 d2 f = false →
  d1 !! id = None ∨ d2 !! id = None.
Proof.
  unfold full_match, contains. intros ->.
  intros [H%bool_decide_eq_false | H%bool_decide_eq_false]%andb_false_iff.
  - left. by apply eq_None_not_Some.
  - right. by apply eq_None_not_Some.
Qed.

Lemma process_all_copied n index f :
  process w src dst d1 d2 n (index, f)
  = (events_of src dst d1 d2 (index, f),
     Ok (n + if full_match d1 d2 f then 1 else 0)).
Proof using Hcopy Hd1 Hd2.
  destruct (full_match d1 d2 f) eqn:Hm.
  - apply full_match_true in Hm as (id & p1 & l1 & p2 & l2 & E & H1 & H2).
    rewrite (process_match _ _ _ _ _ _ _ _ id p1 l1 p2 l2) by done.
    unfold events_of. rewrite E, H1, H2. unfold group_copies.
    cbn [lookup list_lookup from_option fst snd]. rewrite !Hcopy.
    by cbn [andb take].
  - unfold events_of. rewrite Nat.add_0_r.
    destruct (extract_identifier f) as [id|] eqn:E;
      [|by apply process_no_identifier].
    destruct (full_match_false _ _ E Hm) as [H | H].
    + rewrite H. apply process_no_match; auto.
    + rewrite H. rewrite (process_no_match _ _ _ _ _ _ _ _ id) by auto.
      by destruct (d1 !! id) as [[|? ?]|].
Qed.

Lemma length_copies_events_of index f :
  length (copies (events_of src dst d1 d2 (index, f)))
  = 3 * (if full_match d1 d2 f then 1 else 0).
Proof using Hd1 Hd2.
  destruct (full_match d1 d2 f) eqn:Hm.
  - apply full_match_true in Hm as (id & p1 & l1 & p2 & l2 & E & H1 & H2).
    unfold events_of. rewrite E, H1, H2, !copies_app, copies_of_copies.
    by destruct (bool_decide _).
  - unfold events_of.
    destruct (extract_identifier f) as [id|] eqn:E; [|done].
    destruct (full_match_false _ _ E Hm) as [H | H]; rewrite H; [done|].
    by destruct (d1 !! id) as [[|? ?]|].
Qed.

Lemma for_each_all_copied (xs : list (nat * string)) n :
  for_each (process w src dst d1 d2) xs n
  = (flat_map (events_of src dst d1 d2) xs,
     Ok (n + length (List.filter (full_match d1 d2) (map snd xs)))).
Proof using Hcopy Hd1 Hd2.
  revert n. induction xs as [|[index f] xs IH]; intros n.
  - simpl. by rewrite Nat.add_0_r.
  - rewrite for_each_cons, process_all_copied, bind_Ok, IH.
    unfold trace, result. cbn [fst snd map List.filter flat_map].
    f_equal. f_equal. destruct (full_match d1 d2 f); simpl; lia.
Qed.

Lemma length_copies_flat_map (xs : list (nat * string)) :
  length (copies (flat_map (events_of src dst d1 d2) xs))
  = 3 * length (List.filter (full_match d1 d2) (map snd xs)).
Proof using Hd1 Hd2.
  induction xs as [|[index f] xs IH]; [done|].
  cbn [flat_map map snd List.filter].
  rewrite copies_app, length_app, IH, length_copies_events_of.
  destruct (full_match d1 d2 f); simpl; lia.
Qed.

End AllCopied.

Section Built.

Lemma build_index_no_empty triples : no_empty (build_index triples).
Proof. intros id l. apply build_index_nonempty. Qed.

Lemma build_index_paths triples id p l :
  paths_for id triples = p :: l → build_index triples !! id = Some (p :: l).
Proof. intros H. by rewrite build_index_lookup, H. Qed.

Lemma contains_no_empty (d : gmap string (list string)) id :
  no_empty d → contains d id = true → ∃ p l, d !! id = Some (p :: l).
Proof.
  unfold contains. intros Hd [[|p l] H]%bool_decide_eq_true; [|eauto].
  by destruct (Hd _ _ H).
Qed.

Lemma contains_false (d : gmap string (list string)) id :
  contains d id = false → d !! id = None.
Proof.
  unfold contains. intros H%bool_decide_eq_false. by apply eq_None_not_Some.
Qed.

End Built.

(** C3. For a source file with an identifier, copies are made exactly
    when the identifier is a key of both indices. Then, the copy
    primitive not failing, the three copies of the group are made and the
    count grows by one. Otherwise nothing is copied, the count is
    unchanged, the no-match line is printed and the loop goes on with the
    next source file. *)
Theorem match_group_iff_both_indices (w : World) (src f1 f2 dst : string)
    (n index : nat) (f id : string) :
  let d1 := build_index (walk f1 (folder1_dir w)) in
  let d2 := build_index (walk f2 (folder2_dir w)) in
  let r := process w src dst d1 d2 n (index, f) in
  extract_identifier f = Some id →
  (copies (trace r) ≠ [] ↔ contains d1 id = true ∧ contains d2 id = true)
  ∧ (contains d1 id = true → contains d2 id = true →
     (∀ s d, copy2_ok w s d = true) →
     ∃ p1 l1 p2 l2,
       d1 !! id = Some (p1 :: l1) ∧ d2 !! id = Some (p2 :: l2)
       ∧ copies (trace r) = group_copies src dst index f p1 p2
       ∧ result r = Ok (n + 1))
  ∧ (contains d1 id = false ∨ contains d2 id = false →
     r = ([Print (line_no_match id)], Ok n)
     ∧ ∀ rest,
         for_each (process w src dst d1 d2) ((index, f) :: rest) n
         = (print (line_no_match id);;
            for_each (process w src dst d1 d2) rest n)).
Proof.
  intros d1 d2 r E.
  assert (no_empty d1) as Hd1 by apply build_index_no_empty.
  assert (no_empty d2) as Hd2 by apply build_index_no_empty.
  clearbody d1 d2.
  assert (contains d1 id = false ∨ contains d2 id = false →
          r = ([Print (line_no_match id)], Ok n)) as Hno.
  { intros H. apply process_no_match; [done|].
    destruct H as [H | H]; [left | right]; by apply contains_false. }
  split; [|split].
  - split.
    + intros Hc. destruct (contains d1 id) eqn:C1, (contains d2 id) eqn:C2;
        try done; rewrite Hno in Hc by auto; done.
    + intros [(p1 & l1 & H1)%contains_no_empty
              (p2 & l2 & H2)%contains_no_empty]; try done.
      destruct (process_match_copies w src dst d1 d2 n index f id
                  p1 l1 p2 l2 E H1 H2) as (k & Hk & Hc).
      fold r in Hc. rewrite Hc. destruct k as [|k]; [lia|]. done.
  - intros (p1 & l1 & H1)%contains_no_empty
           (p2 & l2 & H2)%contains_no_empty Hcopy; try done.
    exists p1, l1, p2, l2. do 2 (split; [done|]).
    unfold r. rewrite (process_all_copied w src dst d1 d2 Hcopy Hd1 Hd2).
    unfold events_of, full_match, trace, result. cbn [fst snd].
    rewrite E, H1, H2, !copies_app, copies_of_copies.
    unfold contains. rewrite H1, H2.
    rewrite (bool_decide_eq_true_2 (is_Some (Some (p1 :: l1)))) by eauto.
    rewrite (bool_decide_eq_true_2 (is_Some (Some (p2 :: l2)))) by eauto.
    split; [|done].
    destruct (bool_decide _); cbn [copies app]; by rewrite ?app_nil_r.
  - intros H. split; [by apply Hno|]. intros rest.
    rewrite for_each_cons. fold r. rewrite (Hno H). done.
Qed.

Lemma match_group_iff_both_indices_witness :
  extract_identifier "a_00020002.jpg" = Some "000"
  ∧ result (process Example.album "data/src/" "out"
              (build_index (walk "f1" (folder1_dir Example.album)))
              (build_index (walk "f2" (folder2_dir Example.album)))
              0 (0, "a_00020002.jpg"))
    = Ok 1.
Proof.
  split; [reflexivity|].
  destruct (match_group_iff_both_indices Example.album "data/src/" "f1" "f2"
              "out" 0 0 "a_00020002.jpg" "000" eq_refl) as (_ & H & _).
  destruct (H eq_refl eq_refl (λ _ _, eq_refl)) as (? & ? & ? & ? & _ & _ & _ & Hr).
  exact Hr.
Defined.

(** C5. When the files found for the identifier of a source file are, in
    the order of the traversal, [p1 :: l1] in the first folder and
    [p2 :: l2] in the second, the copies made are the source file, [p1]
    and [p2], in this order (all three when the copy primitive does not
    fail): no path of [l1] or [l2] is used. The notice is printed exactly
    when [l1] or [l2] is not empty. *)
Theorem first_candidate_used (w : World) (src f1 f2 dst : string)
    (n index : nat) (f id p1 p2 : string) (l1 l2 : list string) :
  let t1 := walk f1 (folder1_dir w) in
  let t2 := walk f2 (folder2_dir w) in
  let r := process w src dst (build_index t1) (build_index t2) n (index, f) in
  extract_identifier f = Some id →
  paths_for id t1 = p1 :: l1 →
  paths_for id t2 = p2 :: l2 →
  (∃ k, 1 ≤ k ≤ 3
        ∧ copies (trace r) = take k (group_copies src dst index f p1 p2))
  ∧ ((∀ s d, copy2_ok w s d = true) →
     copies (trace r) = group_copies src dst index f p1 p2)
  ∧ map fst (group_copies src dst index f p1 p2)
    = [PosixPath.join src f; p1; p2]
  ∧ (In (Print (line_multiple id)) (trace r) ↔ l1 ≠ [] ∨ l2 ≠ []).
Proof.
  intros t1 t2 r E H1%build_index_paths H2%build_index_paths.
  split; [|split; [|split]].
  - by eapply process_match_copies.
  - intros Hcopy. unfold r.
    rewrite (process_all_copied w src dst _ _ Hcopy
               (build_index_no_empty _) (build_index_no_empty _)).
    unfold events_of, trace. cbn [fst].
    rewrite E, H1, H2, !copies_app, copies_of_copies.
    destruct (bool_decide _); cbn [copies app]; by rewrite ?app_nil_r.
  - done.
  - by eapply process_match_notice.
Qed.

Lemma first_candidate_used_witness :
  paths_for "000" (walk "f1" (folder1_dir Example.album))
  = ["f1/left/l_00099999.jpg"; "f1/left/l_00011111.jpg"]
  ∧ map fst
      (copies
         (trace (process Example.album "data/src/" "out"
                   (build_index (walk "f1" (folder1_dir Example.album)))
                   (build_index (walk "f2" (folder2_dir Example.album)))
                   0 (0, "a_00020002.jpg"))))
    = ["data/src/a_00020002.jpg"; "f1/left/l_00099999.jpg";
       "f2/right/deep/r_00055555.jpg"].
Proof.
  split; [reflexivity|].
  destruct (first_candidate_used Example.album "data/src/" "f1" "f2" "out"
              0 0 "a_00020002.jpg" "000"
              "f1/left/l_00099999.jpg" "f2/right/deep/r_00055555.jpg"
              ["f1/left/l_00011111.jpg"] []
              eq_refl eq_refl eq_refl) as (_ & H & Hsrc & _).
  rewrite (H (λ _ _, eq_refl)). exact Hsrc.
Defined.

(** ** The run when no copy fails *)

Section RunAllCopied.
Context (w : World) (src f1 f2 dst : string) (entries : list node).
Context (Hmk : makedirs_ok w = true) (Hsrc : source_dir w = Some entries).
Context (Hcopy : ∀ s d, copy2_ok w s d = true).

Local Abbreviation d1 := (build_index (walk f1 (folder1_dir w))).
Local Abbreviation d2 := (build_index (walk f2 (folder2_dir w))).
Local Abbreviation files := (source_list (map node_name entries)).

Lemma pass_all_copied (l : list string) :
  for_each (process w src dst d1 d2) (enumerate l) 0
  = (flat_map (events_of src dst d1 d2) (enumerate l),
     Ok (length (List.filter (full_match d1 d2) l))).
Proof using Hcopy.
  rewrite (for_each_all_copied w src dst d1 d2 Hcopy
             (build_index_no_empty _) (build_index_no_empty _)).
  by rewrite enumerate_snd.
Qed.

Lemma run_all_copied :
  find_matching_images w src f1 f2 dst
  = (Makedirs dst
       :: flat_map (events_of src dst d1 d2) (enumerate files)
       ++ [Print (line_total (length (List.filter (full_match d1 d2) files)))],
     Ok tt).
Proof using Hmk Hsrc Hcopy.
  rewrite (run_pass w src f1 f2 dst entries Hmk Hsrc). cbn zeta.
  unfold matching_pass. by rewrite pass_all_copied.
Qed.

Lemma run_group_copies index f id p1 l1 p2 l2 :
  files !! index = Some f →
  extract_identifier f = Some id →
  d1 !! id = Some (p1 :: l1) → d2 !! id = Some (p2 :: l2) →
  ∃ before after,
    copies (trace (find_matching_images w src f1 f2 dst))
    = before ++ group_copies src dst index f p1 p2 ++ after.
Proof using Hmk Hsrc Hcopy.
  intros Hf E H1 H2. rewrite run_all_copied. unfold trace. cbn [fst].
  rewrite (enumerate_split files index f Hf), flat_map_app.
  cbn [flat_map].
  change (Makedirs dst :: ?t) with ([Makedirs dst] ++ t).
  rewrite !copies_app.
  exists (copies (flat_map (events_of src dst d1 d2)
                    (enumerate (take index files)))),
         (copies (flat_map (events_of src dst d1 d2)
                    (imap (λ j, pair (S index + j)) (drop (S index) files)))).
  change (copies [Makedirs dst]) with (@nil (string * string)).
  change (copies [Print ?l]) with (@nil (string * string)).
  rewrite app_nil_l, app_nil_r. do 2 f_equal.
  unfold events_of. rewrite E, H1, H2, !copies_app, copies_of_copies.
  destruct (bool_decide _); cbn [copies app]; by rewrite app_nil_r.
Qed.

End RunAllCopied.

(** C2, counterexample. With the source folder given as [shots/], the
    first copy goes to [0000_1_shots_a_00020002.jpg]; the last segment of
    the path as given is empty. *)
Lemma destination_names_trailing_slash :
  copies (trace (find_matching_images Example.pair_of_sources
                   "shots/" "left" "right" "out"))
  = [("shots/a_00020002.jpg", "out/0000_1_shots_a_00020002.jpg");
     ("left/m_00012345.jpg", "out/0000_2_left_m_00012345.jpg");
     ("right/n_00054321.jpg", "out/0000_3_right_n_00054321.jpg");
     ("shots/b_00010001.jpg", "out/0001_1_shots_b_00010001.jpg");
     ("left/m_00012345.jpg", "out/0001_2_left_m_00012345.jpg");
     ("right/n_00054321.jpg", "out/0001_3_right_n_00054321.jpg")]
  ∧ literal_name 0 "1" "shots/" "shots/a_00020002.jpg"
    = "0000_1__a_00020002.jpg"
  ∧ PosixPath.join "out" (literal_name 0 "1" "shots/" "shots/a_00020002.jpg")
    ≠ "out/0000_1_shots_a_00020002.jpg".
Proof. split; [by vm_compute|]. split; [by vm_compute|]. by vm_compute. Qed.

(** C2, amended. When no primitive fails, the source file at position
    [index] of the source list that has files in both indices, [p1] and
    [p2] being the first of each, is copied with them to the names
    [{index:04d}_1_], [_2_] and [_3_] followed by the last segment of the
    normalised path of the source folder, respectively of the directory
    that holds [p1] and [p2], an underscore and the name of the file. The
    number is padded with zeros to four characters and never cut. *)
Theorem destination_names (w : World) (src f1 f2 dst : string)
    (entries : list node) (index : nat) (f id p1 p2 : string)
    (l1 l2 : list string) :
  makedirs_ok w = true →
  source_dir w = Some entries →
  (∀ s d, copy2_ok w s d = true) →
  source_list (map node_name entries) !! index = Some f →
  extract_identifier f = Some id →
  paths_for id (walk f1 (folder1_dir w)) = p1 :: l1 →
  paths_for id (walk f2 (folder2_dir w)) = p2 :: l2 →
  let source_path := PosixPath.join src f in
  (∃ before after,
     copies (trace (find_matching_images w src f1 f2 dst))
     = before
       ++ [ (source_path,
             PosixPath.join dst
               (Str.format_04d index +:+ "_1_"
                +:+ PosixPath.basename (PosixPath.normpath src) +:+ "_"
                +:+ PosixPath.basename source_path));
            (p1,
             PosixPath.join dst
               (Str.format_04d index +:+ "_2_"
                +:+ PosixPath.basename
                      (PosixPath.normpath (PosixPath.dirname p1)) +:+ "_"
                +:+ PosixPath.basename p1));
            (p2,
             PosixPath.join dst
               (Str.format_04d index +:+ "_3_"
                +:+ PosixPath.basename
                      (PosixPath.normpath (PosixPath.dirname p2)) +:+ "_"
                +:+ PosixPath.basename p2)) ]
       ++ after)
  ∧ Str.format_04d index
    = Str.times "0" (4 - String.length (Str.of_nat index))
      +:+ Str.of_nat index
  ∧ String.length (Str.format_04d index)
    = 4 `max` String.length (Str.of_nat index)
  ∧ Str.format_04d 7 = "0007"
  ∧ Str.format_04d 12345 = "12345".
Proof.
  intros Hmk Hsrc Hcopy Hf E H1%build_index_paths H2%build_index_paths.
  cbn zeta. split; [|split; [done|split; [apply length_format_04d|done]]].
  apply (run_group_copies w src f1 f2 dst entries Hmk Hsrc Hcopy
           index f id p1 l1 p2 l2 Hf E H1 H2).
Qed.

Lemma destination_names_witness :
  source_list (map node_name
    [File "b_00010001.jpg"; File "a_00020002.jpg"; File "photo_final.jpg";
     File "c_12345.jpg"; Folder "sub" [File "z_00030003.jpg"]]) !! 1
  = Some "b_00010001.jpg"
  ∧ ∃ before after,
      copies (trace (find_matching_images Example.album
                       "data/src/" "f1" "f2/" "out"))
      = before
        ++ [("data/src/b_00010001.jpg", "out/0001_1_src_b_00010001.jpg");
            ("f1/left/l_00099999.jpg", "out/0001_2_left_l_00099999.jpg");
            ("f2/right/deep/r_00055555.jpg",
             "out/0001_3_deep_r_00055555.jpg")]
        ++ after.
Proof.
  split; [reflexivity|].
  exact (proj1 (destination_names Example.album "data/src/" "f1" "f2/" "out"
                  _ 1 "b_00010001.jpg" "000"
                  "f1/left/l_00099999.jpg" "f2/right/deep/r_00055555.jpg"
                  ["f1/left/l_00011111.jpg"] []
                  eq_refl eq_refl (λ _ _, eq_refl) eq_refl eq_refl
                  eq_refl eq_refl)).
Defined.

(** ** The counter and the ways a run ends *)

Section Counter.
Context (w : World) (src dst : string).
Context (d1 d2 : gmap string (list string)).
Implicit Types (n index : nat) (f id : string) (t : list event).

(** What one round of the loop does to the counter, and why it can
    raise. *)
Lemma process_outcome n index f :
  let r := process w src dst d1 d2 n (index, f) in
  (full_match d1 d2 f = false
   ∧ copies (trace r) = []
   ∧ (result r = Ok n ∨ result r = Raise IndexError))
  ∨ (full_match d1 d2 f = true
     ∧ ((length (copies (trace r)) = 3 ∧ result r = Ok (n + 1))
        ∨ (result r = Raise OSError
           ∧ ∃ s d, In (s, d) (copies (trace r)) ∧ copy2_ok w s d = false)
        ∨ (copies (trace r) = [] ∧ result r = Raise IndexError))).
Proof.
  cbn zeta. unfold full_match, contains.
  destruct (extract_identifier f) as [id|] eqn:E.
  2: { left. rewrite process_no_identifier by done. auto. }
  destruct (d1 !! id) as [l1|] eqn:H1.
  2: { left. rewrite (process_no_match _ _ _ _ _ _ _ _ id) by auto.
       split; [|auto]. by rewrite bool_decide_eq_false_2 by (by intros [? ?]). }
  destruct (d2 !! id) as [l2|] eqn:H2.
  2: { left. rewrite (process_no_match _ _ _ _ _ _ _ _ id) by auto.
       split; [|auto].
       rewrite (bool_decide_eq_false_2 (is_Some None)) by (by intros [? ?]).
       apply andb_false_r. }
  right. split.
  { rewrite !bool_decide_eq_true_2 by eauto. done. }
  destruct l1 as [|p1 l1].
  { right. right.
    by rewrite (process_index_error _ _ _ _ _ _ _ _ id [] l2) by auto. }
  destruct l2 as [|p2 l2].
  { right. right.
    by rewrite (process_index_error _ _ _ _ _ _ _ _ id (p1 :: l1) []) by auto. }
  rewrite (process_match _ _ _ _ _ _ _ _ id p1 l1 p2 l2) by done.
  unfold trace, result. cbn [fst snd].
  rewrite !copies_app, copies_of_copies.
  assert (∀ b : bool, copies (if b then [Print (line_multiple id)] else [])
                      = []) as -> by (by intros []).
  unfold group_copies. cbn [lookup list_lookup from_option fst snd app].
  destruct (copy2_ok w _ _) eqn:C1; cbn [andb].
  2: { right. left. split; [done|]. eexists _, _. split; [|exact C1].
       by left. }
  destruct (copy2_ok w p1 _) eqn:C2; cbn [andb].
  2: { right. left. split; [done|]. eexists _, _. split; [|exact C2].
       right. by left. }
  destruct (copy2_ok w p2 _) eqn:C3; cbn [andb].
  2: { right. left. split; [done|]. eexists _, _. split; [|exact C3].
       right. right. by left. }
  by left.
Qed.

Lemma process_not_index_error n index f :
  no_empty d1 → no_empty d2 →
  result (process w src dst d1 d2 n (index, f)) ≠ Raise IndexError.
Proof.
  intros Hd1 Hd2.
  destruct (extract_identifier f) as [id|] eqn:E;
    [|by rewrite process_no_identifier].
  destruct (d1 !! id) as [l1|] eqn:H1;
    [|by rewrite (process_no_match _ _ _ _ _ _ _ _ id); auto].
  destruct (d2 !! id) as [l2|] eqn:H2;
    [|by rewrite (process_no_match _ _ _ _ _ _ _ _ id); auto].
  destruct l1 as [|p1 l1]; [by destruct (Hd1 _ _ H1)|].
  destruct l2 as [|p2 l2]; [by destruct (Hd2 _ _ H2)|].
  rewrite (process_match _ _ _ _ _ _ _ _ id p1 l1 p2 l2) by done.
  unfold result. cbn [snd]. by destruct (_ && _).
Qed.

(** The counter after the loop is the number of groups of three copies
    made. *)
Lemma for_each_counter (xs : list (nat * string)) n t n' :
  for_each (process w src dst d1 d2) xs n = (t, Ok n') →
  n ≤ n' ∧ length (copies t) = 3 * (n' - n).
Proof.
  revert n t. induction xs as [|[index f] xs IH]; intros n t.
  - intros [= <- <-]. simpl. lia.
  - rewrite for_each_cons.
    pose proof (process_outcome n index f) as Ho. cbn zeta in Ho.
    destruct (process w src dst d1 d2 n (index, f)) as [t0 [n0|e]];
      [|done].
    rewrite bind_Ok. unfold trace, result in *. cbn [fst snd] in Ho.
    destruct (for_each (process w src dst d1 d2) xs n0) as [t1 r1] eqn:Hl.
    cbn [fst snd]. intros [= <- ->].
    destruct (IH _ _ Hl) as [Hle Hlen]. rewrite copies_app, length_app, Hlen.
    destruct Ho as [(_ & -> & [[= ->] | [=]])
                   | (_ & [[-> [= ->]] | [[[=] _] | [_ [=]]]])];
      simpl; lia.
Qed.

(** The loop raises only when a copy fails. *)
Lemma for_each_raise (xs : list (nat * string)) n e :
  no_empty d1 → no_empty d2 →
  result (for_each (process w src dst d1 d2) xs n) = Raise e →
  ∃ s d,
    In (s, d) (copies (trace (for_each (process w src dst d1 d2) xs n)))
    ∧ copy2_ok w s d = false.
Proof.
  intros Hd1 Hd2. revert n. induction xs as [|[index f] xs IH]; intros n.
  - done.
  - rewrite for_each_cons, result_bind, trace_bind, copies_app.
    pose proof (process_outcome n index f) as Ho. cbn zeta in Ho.
    destruct (result (process w src dst d1 d2 n (index, f))) as [n0|e0] eqn:Hr.
    + intros (s & d & Hin & Hc)%IH. exists s, d. split; [|done].
      apply in_app_iff. by right.
    + intros _.
      pose proof (process_not_index_error n index f Hd1 Hd2) as Hne.
      rewrite Hr in Hne.
      destruct Ho as [(_ & _ & [[=] | [= ->]])
                     | (_ & [[_ [=]] | [[_ (s & d & Hin & Hc)] | [_ [= ->]]]])];
        try done.
      exists s, d. split; [|done]. apply in_app_iff. by left.
Qed.

End Counter.

Lemma enumerate_take_drop {A} (l : list A) k :
  k ≤ length l →
  enumerate l = enumerate (take k l) ++ imap (λ j, pair (k + j)) (drop k l).
Proof.
  intros Hk. unfold enumerate. rewrite <-(take_drop k l) at 1.
  rewrite imap_app. by rewrite length_take_le.
Qed.

(** C8. The counter after any number of rounds of the loop is the number
    of groups of three copies made so far: a round for a file without
    identifier or without match prints one line, copies nothing and
    leaves the counter as it is, and a round that ends adds one exactly
    when it made the three copies. A run that ends prints the counter
    last; it ends whenever no primitive fails, and when it is aborted a
    copy has failed. *)
Theorem match_counter (w : World) (src f1 f2 dst : string)
    (entries : list node) :
  let d1 := build_index (walk f1 (folder1_dir w)) in
  let d2 := build_index (walk f2 (folder2_dir w)) in
  let files := source_list (map node_name entries) in
  let body := process w src dst d1 d2 in
  let run := find_matching_images w src f1 f2 dst in
  makedirs_ok w = true →
  source_dir w = Some entries →
  (∀ k t n,
     k ≤ length files →
     for_each body (enumerate (take k files)) 0 = (t, Ok n) →
     length (copies t) = 3 * n)
  ∧ (∀ k,
       k ≤ length files →
       for_each body (enumerate files) 0
       = for_each body (enumerate (take k files)) 0
           ≫= for_each body (imap (λ j, pair (k + j)) (drop k files)))
  ∧ (∀ n index f,
       full_match d1 d2 f = false →
       ∃ line, body n (index, f) = ([Print line], Ok n))
  ∧ (∀ n index f n',
       result (body n (index, f)) = Ok n' →
       n' = n + (if full_match d1 d2 f then 1 else 0)
       ∧ length (copies (trace (body n (index, f)))) = 3 * (n' - n))
  ∧ (result run = Ok tt →
     ∃ t n,
       run = (Makedirs dst :: t ++ [Print (line_total n)], Ok tt)
       ∧ for_each body (enumerate files) 0 = (t, Ok n)
       ∧ length (copies t) = 3 * n)
  ∧ ((∀ s d, copy2_ok w s d = true) →
     ∃ t,
       run = (Makedirs dst
                :: t ++ [Print (line_total
                                  (length (List.filter (full_match d1 d2)
                                             files)))],
              Ok tt))
  ∧ (∀ e,
       result run = Raise e →
       ∃ s d, In (s, d) (copies (trace run)) ∧ copy2_ok w s d = false).
Proof.
  intros d1 d2 files body run Hmk Hsrc.
  assert (no_empty d1) as Hd1 by apply build_index_no_empty.
  assert (no_empty d2) as Hd2 by apply build_index_no_empty.
  assert (run
          = (Makedirs dst
               :: trace (for_each body (enumerate files) 0)
               ++ match result (for_each body (enumerate files) 0) with
                  | Ok n => [Print (line_total n)]
                  | Raise _ => []
                  end,
             match result (for_each body (enumerate files) 0) with
             | Ok n => Ok tt
             | Raise e => Raise e
             end)) as Hrun.
  { unfold run. by rewrite (run_pass w src f1 f2 dst entries Hmk Hsrc). }
  split; [|split; [|split; [|split; [|split; [|split]]]]].
  - intros k t n _ Hk.
    destruct (for_each_counter w src dst d1 d2 _ _ _ _ Hk) as [_ ->].
    f_equal. lia.
  - intros k Hk. rewrite <-for_each_app. by rewrite <-enumerate_take_drop.
  - intros n index f Hm. unfold body.
    destruct (extract_identifier f) as [id|] eqn:E.
    + exists (line_no_match id). apply process_no_match; [done|].
      by apply (full_match_false d1 d2 f id).
    + exists (line_no_identifier f). by apply process_no_identifier.
  - intros n index f n' Hr.
    pose proof (process_outcome w src dst d1 d2 n index f) as Ho.
    cbn zeta in Ho. fold body in Ho. rewrite Hr in Ho.
    destruct Ho as [(-> & -> & [[= ->] | [=]])
                   | (-> & [[-> [= ->]] | [[[=] _] | [_ [=]]]])];
      simpl; split; lia.
  - rewrite Hrun. unfold result at 1. cbn [snd].
    destruct (for_each body (enumerate files) 0) as [t [n|e]] eqn:Hl; [|done].
    intros _. exists t, n. split; [done|]. split; [done|].
    destruct (for_each_counter w src dst d1 d2 _ _ _ _ Hl) as [_ ->].
    f_equal. lia.
  - intros Hcopy. eexists.
    apply (run_all_copied w src f1 f2 dst entries Hmk Hsrc Hcopy).
  - intros e. rewrite Hrun. unfold result at 1, trace at 1. cbn [fst snd].
    destruct (result (for_each body (enumerate files) 0)) as [n|e'] eqn:Hr;
      [done|].
    intros _.
    destruct (for_each_raise w src dst d1 d2 _ _ _ Hd1 Hd2 Hr)
      as (s & d & Hin & Hc).
    exists s, d. split; [|done].
    unfold trace at 1. cbn [fst].
    change (Makedirs dst :: ?t) with ([Makedirs dst] ++ t).
    rewrite !copies_app, !in_app_iff. right. by left.
Qed.

Lemma match_counter_witness :
  find_matching_images Example.album "data/src/" "f1" "f2/" "out"
  = ([Makedirs "out";
      Print (line_multiple "000");
      Copy2 "data/src/a_00020002.jpg" "out/0000_1_src_a_00020002.jpg";
      Copy2 "f1/left/l_00099999.jpg" "out/0000_2_left_l_00099999.jpg";
      Copy2 "f2/right/deep/r_00055555.jpg" "out/0000_3_deep_r_00055555.jpg";
      Print (line_matched "000");
      Print (line_multiple "000");
      Copy2 "data/src/b_00010001.jpg" "out/0001_1_src_b_00010001.jpg";
      Copy2 "f1/left/l_00099999.jpg" "out/0001_2_left_l_00099999.jpg";
      Copy2 "f2/right/deep/r_00055555.jpg" "out/0001_3_deep_r_00055555.jpg";
      Print (line_matched "000");
      Print (line_no_match "12345");
      Print (line_no_identifier "photo_final.jpg");
      Print (line_total 2)],
     Ok tt)
  ∧ ∃ t n,
      find_matching_images Example.album "data/src/" "f1" "f2/" "out"
      = (Makedirs "out" :: t ++ [Print (line_total n)], Ok tt)
      ∧ length (copies t) = 3 * n.
Proof.
  split; [by vm_compute|].
  destruct (match_counter Example.album "data/src/" "f1" "f2/" "out"
              _ eq_refl eq_refl) as (_ & _ & _ & _ & H & _).
  destruct (H ltac:(by vm_compute)) as (t & n & Hrun & _ & Hlen).
  by exists t, n.
Defined.

(** ** The source list *)

Section SourceList.
Context {A : Type} (p : A → bool).

Lemma filter_Permutation_bool (l l' : list A) :
  l ≡ₚ l' → List.filter p l ≡ₚ List.filter p l'.
Proof.
  induction 1 as [|x l l' _ IH|x y l|l l' l'' _ IH1 _ IH2]; simpl.
  - done.
  - destruct (p x); [by constructor | done].
  - destruct (p x), (p y); try done. apply perm_swap.
  - by etrans.
Qed.

Lemma filter_StronglySorted (R : relation A) (l : list A) :
  StronglySorted R l → StronglySorted R (List.filter p l).
Proof.
  induction 1 as [|x l _ IH Hx]; simpl; [constructor|].
  destruct (p x); [|done]. constructor; [done|].
  apply Forall_forall. intros y Hy%list_elem_of_In%filter_In.
  rewrite Forall_forall in Hx. apply Hx, list_elem_of_In, Hy.
Qed.

End SourceList.

Lemma sorted_spec (l : list string) :
  StronglySorted String.le (sorted l) ∧ sorted l ≡ₚ l.
Proof.
  split; [apply StronglySorted_merge_sort; apply _|].
  apply merge_sort_Permutation.
Qed.

(** Filtering and sorting can be done in either order. *)
Lemma source_list_sorted_filter (listing : list string) :
  source_list listing = sorted (List.filter is_jpg listing).
Proof.
  unfold source_list.
  apply (StronglySorted_unique String.le).
  - apply filter_StronglySorted, sorted_spec.
  - apply sorted_spec.
  - etrans; [apply filter_Permutation_bool, sorted_spec|].
    symmetry. apply sorted_spec.
Qed.

(** ** The case-insensitive filter *)

Section Filter.
Implicit Types (a : ascii) (f s x y pre : string).

Lemma lower_char_dot a : Str.lower_char a = "."%char → a = "."%char.
Proof.
  destruct a as [[] [] [] [] [] [] [] []]; vm_compute; intros H;
    (discriminate H || reflexivity).
Qed.

Lemma lower_char_j a :
  Str.lower_char a = "j"%char → (a = "j" ∨ a = "J")%char.
Proof.
  destruct a as [[] [] [] [] [] [] [] []]; vm_compute; intros H;
    (discriminate H || (left; reflexivity) || (right; reflexivity)).
Qed.

Lemma lower_char_p a :
  Str.lower_char a = "p"%char → (a = "p" ∨ a = "P")%char.
Proof.
  destruct a as [[] [] [] [] [] [] [] []]; vm_compute; intros H;
    (discriminate H || (left; reflexivity) || (right; reflexivity)).
Qed.

Lemma lower_char_g a :
  Str.lower_char a = "g"%char → (a = "g" ∨ a = "G")%char.
Proof.
  destruct a as [[] [] [] [] [] [] [] []]; vm_compute; intros H;
    (discriminate H || (left; reflexivity) || (right; reflexivity)).
Qed.

(** [lower] works character by character: a lowered string splits where
    the string does. *)
Lemma lower_app_inv f pre s :
  Str.lower f = pre +:+ s →
  ∃ x y, f = x +:+ y ∧ Str.lower x = pre ∧ Str.lower y = s.
Proof.
  revert f. induction pre as [|c pre IH]; intros f H.
  - by exists "", f.
  - destruct f as [|a f]; [done|]. simpl in H. injection H as Ha H.
    destruct (IH f H) as (x & y & -> & Hx & Hy).
    exists (String a x), y. simpl. by rewrite Ha, Hx.
Qed.

(** The filter of the source list and of the indexers keeps exactly the
    names that end in [.jpg] written in any case. *)
Lemma is_jpg_spec f : is_jpg f = true ↔ ends_in_jpg_any_case f.
Proof.
  unfold is_jpg, ends_in_jpg_any_case. split.
  - intros [pre H]%endswith_inv.
    apply lower_app_inv in H as (x & y & -> & _ & Hy).
    destruct y as [|d [|a [|b [|c [|? ?]]]]]; try done.
    simpl in Hy. injection Hy as Hd Ha Hb Hc.
    apply lower_char_dot in Hd as ->.
    exists x, a, b, c. split; [done|].
    by split; [apply lower_char_j | split;
                [apply lower_char_p | apply lower_char_g]].
  - intros (x & a & b & c & -> & Ha & Hb & Hc).
    rewrite lower_app.
    assert (Str.lower (String "." (String a (String b (String c ""))))
            = ".jpg") as ->
      by (destruct Ha as [-> | ->], Hb as [-> | ->], Hc as [-> | ->];
          reflexivity).
    apply endswith_app.
Qed.

End Filter.

(** C4. The source list is the listing of the source directory, one
    level deep, filtered to the names that end in [.jpg] whatever the
    case and sorted; every copy of a run belongs to the group of a source
    file and carries the position of that file in the source list. The
    listing [b_00010001.jpg], [a_00020002.jpg] gives the groups 0 for
    [a_00020002.jpg] and 1 for [b_00010001.jpg]. The names kept are those
    of the listing that end in a dot and the letters j, p, g, each in
    either case: a name in capitals is kept, sorts by its code points
    and takes a position, so that [b_00010001.jpg] listed with
    [A_00020002.JPG] is in the group 1. *)
Theorem source_list_order (w : World) (src f1 f2 dst : string)
    (entries : list node) :
  let listing := map node_name entries in
  let files := source_list listing in
  files = sorted (List.filter is_jpg listing)
  ∧ StronglySorted String.le files
  ∧ files ≡ₚ List.filter is_jpg listing
  ∧ (source_dir w = Some entries →
     ∀ s d,
       In (s, d) (copies (trace (find_matching_images w src f1 f2 dst))) →
       ∃ index f p1 p2,
         files !! index = Some f
         ∧ In (s, d) (group_copies src dst index f p1 p2))
  ∧ source_list ["b_00010001.jpg"; "a_00020002.jpg"]
    = ["a_00020002.jpg"; "b_00010001.jpg"]
  ∧ copies (trace (find_matching_images Example.pair_of_sources
                     "shots" "left" "right" "out"))
    = [("shots/a_00020002.jpg", "out/0000_1_shots_a_00020002.jpg");
       ("left/m_00012345.jpg", "out/0000_2_left_m_00012345.jpg");
       ("right/n_00054321.jpg", "out/0000_3_right_n_00054321.jpg");
       ("shots/b_00010001.jpg", "out/0001_1_shots_b_00010001.jpg");
       ("left/m_00012345.jpg", "out/0001_2_left_m_00012345.jpg");
       ("right/n_00054321.jpg", "out/0001_3_right_n_00054321.jpg")]
  ∧ (∀ f, is_jpg f = true ↔ ends_in_jpg_any_case f)
  ∧ (∀ f, In f files ↔ In f listing ∧ ends_in_jpg_any_case f)
  ∧ source_list ["b.jpg"; "B.JPG"; "c.Jpg"; "d.jpeg"; "jpg"; "e.jpg.txt";
                 "a.jPG"; "f.JPGs"; "sub"]
    = ["B.JPG"; "a.jPG"; "b.jpg"; "c.Jpg"]
  ∧ copies (trace (find_matching_images
                     (with_source Example.pair_of_sources
                        (Some [File "b_00010001.jpg";
                               File "A_00020002.JPG"]))
                     "shots" "left" "right" "out"))
    = [("shots/b_00010001.jpg", "out/0001_1_shots_b_00010001.jpg");
       ("left/m_00012345.jpg", "out/0001_2_left_m_00012345.jpg");
       ("right/n_00054321.jpg", "out/0001_3_right_n_00054321.jpg")].
Proof.
  intros listing files.
  assert (files = sorted (List.filter is_jpg listing)) as Hfiles
    by apply source_list_sorted_filter.
  assert (files ≡ₚ List.filter is_jpg listing) as Hperm
    by (rewrite Hfiles; apply sorted_spec).
  split; [done|].
  split; [|split; [|split; [|split; [|split; [|split; [|split; [|split]]]]]]].
  - rewrite Hfiles. apply sorted_spec.
  - done.
  - intros Hsrc s d Hin.
    destruct (run_copies w src f1 f2 dst) as [H | (es & Hes & H)];
      rewrite H in Hin; [done|].
    assert (es = entries) as -> by congruence.
    apply copies_In, for_each_trace_In in Hin
      as ([index f] & n & Hx%enumerate_In & Hin%copies_In).
    destruct (process_copies w src dst
                (build_index (walk f1 (folder1_dir w)))
                (build_index (walk f2 (folder2_dir w))) n index f)
      as [H0 | (p1 & p2 & k & _ & Hk)].
    + by rewrite H0 in Hin.
    + exists index, f, p1, p2. split; [done|]. rewrite Hk in Hin.
      apply list_elem_of_In. eapply elem_of_sublist; [|apply (sublist_take _ k)].
      by apply list_elem_of_In.
  - by vm_compute.
  - by vm_compute.
  - apply is_jpg_spec.
  - intros f. rewrite <-is_jpg_spec, <-filter_In. split.
    + apply Permutation_in. exact Hperm.
    + apply Permutation_in. symmetry. exact Hperm.
  - by vm_compute.
  - by vm_compute.
Qed.

Lemma source_list_order_witness :
  source_dir Example.album
  = Some [File "b_00010001.jpg"; File "a_00020002.jpg";
          File "photo_final.jpg"; File "c_12345.jpg";
          Folder "sub" [File "z_00030003.jpg"]]
  ∧ (∃ index f p1 p2,
       source_list ["b_00010001.jpg"; "a_00020002.jpg"; "photo_final.jpg";
                    "c_12345.jpg"; "sub"] !! index = Some f
       ∧ In ("data/src/b_00010001.jpg", "out/0001_1_src_b_00010001.jpg")
            (group_copies "data/src/" "out" index f p1 p2))
  ∧ In "B.JPG" (source_list ["b.jpg"; "B.JPG"; "notes.txt"]).
Proof.
  split; [reflexivity|]. split.
  - destruct (source_list_order Example.album "data/src/" "f1" "f2/" "out"
                [File "b_00010001.jpg"; File "a_00020002.jpg";
                 File "photo_final.jpg"; File "c_12345.jpg";
                 Folder "sub" [File "z_00030003.jpg"]])
      as (_ & _ & _ & H & _).
    apply (H eq_refl). vm_compute. tauto.
  - destruct (source_list_order Example.album "data/src/" "f1" "f2/" "out"
                [File "b.jpg"; File "B.JPG"; File "notes.txt"])
      as (_ & _ & _ & _ & _ & _ & _ & H & _).
    apply H. split; [right; left; reflexivity|].
    exists "B", "J"%char, "P"%char, "G"%char. auto.
Defined.

(** * Further properties *)

(** ** Names and identifiers *)

Section Suffixes.
Implicit Types (a b c d s : string).

Lemma app_suffix_eq a b c d :
  a +:+ b = c +:+ d → String.length b = String.length d → a = c ∧ b = d.
Proof.
  revert c. induction a as [|x a IH]; intros [|y c] H Hl; simpl in *.
  - done.
  - apply (f_equal String.length) in H. simpl in H.
    rewrite length_app_s in H. lia.
  - apply (f_equal String.length) in H. simpl in H.
    rewrite length_app_s in H. lia.
  - simplify_eq. destruct (IH c) as [-> ->]; done.
Qed.

Lemma length_lower s : String.length (Str.lower s) = String.length s.
Proof. induction s as [|c s IH]; simpl; [done | by rewrite IH]. Qed.

Lemma drop_last_app a b :
  Str.drop_last (String.length b) (a +:+ b) = a.
Proof.
  unfold Str.drop_last, Str.slice_to. rewrite length_app_s.
  replace (String.length a + String.length b - String.length b)
    with (String.length a) by lia.
  apply substring_app_l.
Qed.

End Suffixes.

(** X1. A name that passes the case-insensitive filter but whose
    extension is not the lower-case [.jpg] has no identifier: the indexer
    leaves the index as it is, and the matcher prints that it could not
    extract an identifier and goes on. *)
Theorem upper_case_extension_unmatched (x ext : string) :
  Str.lower ext = ".jpg" → ext ≠ ".jpg" →
  is_jpg (x +:+ ext) = true
  ∧ extract_identifier (x +:+ ext) = None
  ∧ (∀ root d, index_file root d (x +:+ ext) = d)
  ∧ (∀ w src dst d1 d2 n index,
       process w src dst d1 d2 n (index, x +:+ ext)
       = ([Print (line_no_identifier (x +:+ ext))], Ok n)).
Proof.
  intros Hlow Hext.
  assert (is_jpg (x +:+ ext) = true) as Hjpg.
  { unfold is_jpg. rewrite lower_app, Hlow. apply endswith_app. }
  assert (extract_identifier (x +:+ ext) = None) as Hnone.
  { apply extract_identifier_None, search_None_iff.
    pose proof (length_lower ext) as Hlen. rewrite Hlow in Hlen.
    intros [(pre & D & H & _) | (pre & D & H & _)].
    - rewrite <-app_assoc_s in H.
      by destruct (app_suffix_eq _ _ _ _ H) as [_ ?].
    - destruct ext as [|a [|b [|c [|e [|? ?]]]]]; try done.
      assert (pre +:+ D +:+ ".jpg" +:+ LF_s
              = (pre +:+ D +:+ ".") +:+ ("jpg" +:+ LF_s)) as E
        by (by rewrite !app_assoc_s).
      rewrite E in H.
      destruct (app_suffix_eq _ _ _ _ H eq_refl) as [_ [= -> -> -> ->]].
      done. }
  split; [done|]. split; [done|]. split.
  - intros root d. unfold index_file. by rewrite Hjpg, Hnone.
  - intros. by apply process_no_identifier.
Qed.

Lemma upper_case_extension_unmatched_witness :
  Str.lower ".JPG" = ".jpg"
  ∧ is_jpg ("IMG_00012345" +:+ ".JPG") = true
  ∧ extract_identifier ("IMG_00012345" +:+ ".JPG") = None.
Proof.
  split; [reflexivity|].
  destruct (upper_case_extension_unmatched "IMG_00012345" ".JPG"
              eq_refl ltac:(discriminate)) as (H1 & H2 & _).
  by split.
Defined.

(** X2. The last five digits and what stands before the digits do not
    count: two names whose runs of digits are the same non-empty [A]
    followed by any five digits have the identifier [A]; so has a name
    whose whole run is [A], when [A] has at most five digits. *)
Theorem last_five_digits_ignored (pre pre' pre'' A x y : string) :
  ends_in_digit pre = false → ends_in_digit pre' = false →
  ends_in_digit pre'' = false →
  A ≠ "" → Str.all_digits A = true →
  Str.all_digits x = true → String.length x = 5 →
  Str.all_digits y = true → String.length y = 5 →
  extract_identifier (pre +:+ (A +:+ x) +:+ ".jpg") = Some A
  ∧ extract_identifier (pre' +:+ (A +:+ y) +:+ ".jpg") = Some A
  ∧ (String.length A ≤ 5 →
     extract_identifier (pre'' +:+ A +:+ ".jpg") = Some A).
Proof.
  intros Hp Hp' Hp'' HA Hd Hx Hlx Hy Hly.
  assert (∀ p z, ends_in_digit p = false → Str.all_digits z = true →
                 String.length z = 5 →
                 extract_identifier (p +:+ (A +:+ z) +:+ ".jpg") = Some A)
    as H.
  { intros p z Hpz Hz Hlz. unfold extract_identifier.
    rewrite search_after_prefix; try done.
    - rewrite length_app_s, Hlz.
      destruct (Nat.ltb_spec 5 (String.length A + 5)) as [_|Hle].
      + by rewrite <-Hlz, drop_last_app.
      + destruct A; [done | simpl in Hle; lia].
    - by destruct A.
    - by rewrite all_digits_app, Hd, Hz. }
  split; [by apply H|]. split; [by apply H|].
  intros Hlen. unfold extract_identifier.
  rewrite search_after_prefix by done.
  by destruct (Nat.ltb_spec 5 (String.length A)); [lia|].
Qed.

Lemma last_five_digits_ignored_witness :
  extract_identifier ("cam1_" +:+ ("0042" +:+ "00017") +:+ ".jpg") = Some "0042"
  ∧ extract_identifier ("left/" +:+ ("0042" +:+ "99999") +:+ ".jpg")
    = Some "0042"
  ∧ extract_identifier ("" +:+ "0042" +:+ ".jpg") = Some "0042".
Proof.
  destruct (last_five_digits_ignored "cam1_" "left/" "" "0042" "00017" "99999"
              eq_refl eq_refl eq_refl ltac:(discriminate)
              eq_refl eq_refl eq_refl eq_refl eq_refl) as (H1 & H2 & H3).
  split; [exact H1|]. split; [exact H2|]. apply H3. simpl. lia.
Defined.

Section Leftmost.
Implicit Types (s g pre t : string) (c : ascii).

(** The match found by [re.search] starts its run of digits: the
    character before it, if any, is not a digit. *)
Lemma search_inv_leftmost s g :
  Re.search s = Some g →
  ∃ pre t,
    s = pre +:+ g +:+ t ∧ ends_in_digit pre = false
    ∧ Re.match_tail t = true.
Proof.
  induction s as [|c s IH]; [done|]. rewrite search_cons.
  destruct (Re.match_here (String c s)) as [g'|] eqn:Hm; intros H.
  - simplify_eq. destruct (match_here_inv _ _ Hm) as (_ & _ & t & -> & ?).
    by exists "", t.
  - destruct (IH H) as (pre & t & -> & Hpre & Ht).
    exists (String c pre), t. split; [done|]. split; [|done].
    destruct pre as [|c' pre]; [|done]. simpl.
    destruct (Str.is_digit c) eqn:Hc; [|done].
    destruct (search_inv _ _ H) as (Hg & Hd & _).
    simpl in Hm. rewrite Hc, (match_here_digits g t Hg Hd Ht) in Hm. done.
Qed.

End Leftmost.

(** X3. An identifier is read off the name: it is a non-empty string of
    digits that stands in the name after a prefix that does not end in a
    digit, followed by exactly five more digits, or by none when it has
    at most five digits itself, then by [.jpg] and the end of the name
    (or one line feed and the end). *)
Theorem identifier_in_name (f id : string) :
  extract_identifier f = Some id →
  ∃ pre rest nl,
    f = pre +:+ (id +:+ rest) +:+ ".jpg" +:+ nl
    ∧ ends_in_digit pre = false
    ∧ id ≠ "" ∧ Str.all_digits id = true ∧ Str.all_digits rest = true
    ∧ (String.length rest = 5 ∨ (rest = "" ∧ String.length id ≤ 5))
    ∧ (nl = "" ∨ nl = LF_s).
Proof.
  intros E. destruct (extract_identifier_Some _ _ E) as [Hne Hid].
  unfold extract_identifier in E.
  destruct (Re.search f) as [g|] eqn:Hs; [|done].
  destruct (search_inv _ _ Hs) as (_ & Hg & _).
  destruct (search_inv_leftmost _ _ Hs) as (pre & t & -> & Hpre & Ht).
  assert (∃ nl, t = ".jpg" +:+ nl ∧ (nl = "" ∨ nl = LF_s)) as (nl & -> & Hnl).
  { apply match_tail_inv in Ht as [-> | ->]; [exists "" | exists LF_s]; auto. }
  destruct (Nat.ltb_spec 5 (String.length g)) as [Hlen|Hlen]; simplify_eq.
  - destruct (drop_last_split g 5 ltac:(lia)) as (tl & Htl & Hsplit).
    exists pre, tl, nl. rewrite <-Hsplit. split; [done|].
    do 3 (split; [done|]). split; [|auto].
    rewrite Hsplit, all_digits_app in Hg.
    by apply andb_true_iff in Hg as [_ ?].
  - exists pre, "", nl. rewrite app_nil_r_s. auto 10.
Qed.

Lemma identifier_in_name_witness :
  extract_identifier "scan_20240117.jpg" = Some "202"
  ∧ ∃ pre rest nl,
      "scan_20240117.jpg" = pre +:+ ("202" +:+ rest) +:+ ".jpg" +:+ nl
      ∧ ends_in_digit pre = false ∧ Str.all_digits rest = true.
Proof.
  split; [reflexivity|].
  destruct (identifier_in_name "scan_20240117.jpg" "202" eq_refl)
    as (pre & rest & nl & H & Hpre & _ & _ & Hrest & _).
  by exists pre, rest, nl.
Defined.

(** ** Paths *)

Section PathFacts.
Implicit Types (a b p s : string) (c : ascii).

Lemma rfind1_zero c s : Str.rfind1 c s = 0 ↔ has_char c s = false.
Proof.
  induction s as [|x s IH]; simpl; [done|].
  destruct (Str.rfind1 c s) as [|k].
  - destruct (Ascii.eqb x c); simpl; [done|]. tauto.
  - destruct (has_char c s); [|by destruct IH as [_ IH]; specialize (IH eq_refl)].
    by rewrite orb_true_r.
Qed.

Lemma rfind1_le c s : Str.rfind1 c s ≤ String.length s.
Proof.
  induction s as [|x s IH]; simpl; [done|].
  destruct (Str.rfind1 c s); [destruct (Ascii.eqb x c)|]; lia.
Qed.

Lemma rfind1_app c a b :
  Str.rfind1 c (a +:+ b)
  = match Str.rfind1 c b with
    | 0 => Str.rfind1 c a
    | S k => String.length a + S k
    end.
Proof.
  induction a as [|x a IH]; simpl; [by destruct (Str.rfind1 c b)|].
  rewrite IH. destruct (Str.rfind1 c b); [done|].
  by rewrite Nat.add_succ_r.
Qed.

Lemma slice_from_0 s : Str.slice_from 0 s = s.
Proof. unfold Str.slice_from. rewrite Nat.sub_0_r. apply substring_all. Qed.

Lemma slice_from_cons k c s :
  Str.slice_from (S k) (String c s) = Str.slice_from k s.
Proof. done. Qed.

Lemma slice_from_app_r a b k :
  Str.slice_from (String.length a + k) (a +:+ b) = Str.slice_from k b.
Proof.
  induction a as [|x a IH]; [done|]. simpl String.length.
  rewrite Nat.add_succ_l, app_cons_s, slice_from_cons. apply IH.
Qed.

Lemma slice_from_app_l a b k :
  k ≤ String.length a →
  Str.slice_from k (a +:+ b) = Str.slice_from k a +:+ b.
Proof.
  revert k. induction a as [|x a IH]; intros [|k] Hk; simpl in Hk;
    try lia.
  - by rewrite !slice_from_0.
  - by rewrite !slice_from_0.
  - rewrite app_cons_s, !slice_from_cons. apply IH. lia.
Qed.

Lemma has_char_app c a b :
  has_char c (a +:+ b) = has_char c a || has_char c b.
Proof.
  induction a as [|x a IH]; simpl; [done|]. by rewrite IH, orb_assoc.
Qed.

Lemma has_char_digits c s :
  Str.is_digit c = false → Str.all_digits s = true → has_char c s = false.
Proof.
  intros Hc. induction s as [|x s IH]; simpl; [done|].
  intros [Hx Hs]%andb_true_iff. rewrite (IH Hs), orb_false_r.
  destruct (Ascii.eqb_spec x c) as [->|]; [congruence | done].
Qed.

Lemma basename_app a b :
  PosixPath.basename (a +:+ b)
  = if has_char PosixPath.sep b then PosixPath.basename b
    else PosixPath.basename a +:+ b.
Proof.
  unfold PosixPath.basename. rewrite rfind1_app.
  destruct (Str.rfind1 PosixPath.sep b) as [|k] eqn:Hb.
  - apply rfind1_zero in Hb as Hc. rewrite Hc.
    apply slice_from_app_l, rfind1_le.
  - destruct (has_char PosixPath.sep b) eqn:Hc.
    + apply slice_from_app_r.
    + apply rfind1_zero in Hc. congruence.
Qed.

Lemma basename_no_sep_id b :
  has_char PosixPath.sep b = false → PosixPath.basename b = b.
Proof.
  intros H%rfind1_zero. unfold PosixPath.basename. rewrite H.
  apply slice_from_0.
Qed.

Lemma basename_ends_with_sep a : PosixPath.basename (a +:+ "/") = "".
Proof. by rewrite basename_app. Qed.

Lemma basename_has_no_sep p :
  has_char PosixPath.sep (PosixPath.basename p) = false.
Proof.
  apply rfind1_zero. unfold PosixPath.basename.
  induction p as [|x p IH]; [done|]. simpl Str.rfind1.
  destruct (Str.rfind1 PosixPath.sep p) as [|k] eqn:Hp.
  - rewrite slice_from_0 in IH.
    destruct (Ascii.eqb x PosixPath.sep) eqn:Hx.
    + by rewrite slice_from_cons, slice_from_0.
    + rewrite slice_from_0. simpl. by rewrite Hp, Hx.
  - by rewrite slice_from_cons.
Qed.

End PathFacts.

Lemma basename_of_join a b :
  PosixPath.basename (PosixPath.join a b) = PosixPath.basename b.
Proof.
  unfold PosixPath.join. destruct (Str.startswith b "/"); [done|].
  destruct (String.eqb_spec a "") as [->|Ha]; [done|]. cbn [orb].
  destruct (Str.endswith a "/") eqn:He.
  - apply endswith_inv in He as [a' ->]. rewrite basename_app.
    destruct (has_char PosixPath.sep b) eqn:Hb; [done|].
    by rewrite basename_ends_with_sep, basename_no_sep_id.
  - rewrite (basename_app a). simpl has_char.
    change ("/" +:+ b) with (("" +:+ "/") +:+ b). rewrite basename_app.
    destruct (has_char PosixPath.sep b) eqn:Hb; [done|].
    by rewrite basename_ends_with_sep, basename_no_sep_id.
Qed.

(** X4. The last segment of a joined path is the last segment of what was
    joined: the name given to a copy ends with the name of the file it
    copies, and no last segment holds a separator. *)
Theorem basename_join (a b : string) :
  PosixPath.basename (PosixPath.join a b) = PosixPath.basename b
  ∧ (has_char PosixPath.sep b = false →
     PosixPath.basename (PosixPath.join a b) = b)
  ∧ has_char PosixPath.sep (PosixPath.basename b) = false.
Proof.
  split; [apply basename_of_join|]. split; [|apply basename_has_no_sep].
  intros Hb. by rewrite basename_of_join, basename_no_sep_id.
Qed.

Lemma basename_join_witness :
  has_char PosixPath.sep "a_00020002.jpg" = false
  ∧ PosixPath.basename (PosixPath.join "data/src/" "a_00020002.jpg")
    = "a_00020002.jpg".
Proof.
  split; [reflexivity|].
  exact (proj1 (proj2 (basename_join "data/src/" "a_00020002.jpg")) eq_refl).
Defined.

(** ** Where the copies come from and where they go *)

Section Origin.
Context (w : World) (src f1 f2 dst : string).

Lemma process_copy_origin d1 d2 n index f s d :
  In (s, d) (copies (trace (process w src dst d1 d2 n (index, f)))) →
  ∃ id p1 l1 p2 l2,
    extract_identifier f = Some id
    ∧ d1 !! id = Some (p1 :: l1) ∧ d2 !! id = Some (p2 :: l2)
    ∧ In (s, d) (group_copies src dst index f p1 p2).
Proof.
  destruct (extract_identifier f) as [id|] eqn:E;
    [|by rewrite process_no_identifier].
  destruct (d1 !! id) as [l1|] eqn:H1;
    [|by rewrite (process_no_match _ _ _ _ _ _ _ _ id); auto].
  destruct (d2 !! id) as [l2|] eqn:H2;
    [|by rewrite (process_no_match _ _ _ _ _ _ _ _ id); auto].
  destruct l1 as [|p1 l1];
    [by rewrite (process_index_error _ _ _ _ _ _ _ _ id [] l2); auto|].
  destruct l2 as [|p2 l2];
    [by rewrite (process_index_error _ _ _ _ _ _ _ _ id (p1 :: l1) []); auto|].
  destruct (process_match_copies w src dst d1 d2 n index f id p1 l1 p2 l2
              E H1 H2) as (k & _ & ->).
  intros Hin. exists id, p1, l1, p2, l2. do 3 (split; [done|]).
  apply list_elem_of_In. eapply elem_of_sublist; [|apply (sublist_take _ k)].
  by apply list_elem_of_In.
Qed.

Lemma run_copy_origin s d :
  In (s, d) (copies (trace (find_matching_images w src f1 f2 dst))) →
  ∃ entries index f id p1 l1 p2 l2,
    source_dir w = Some entries
    ∧ source_list (map node_name entries) !! index = Some f
    ∧ extract_identifier f = Some id
    ∧ build_index (walk f1 (folder1_dir w)) !! id = Some (p1 :: l1)
    ∧ build_index (walk f2 (folder2_dir w)) !! id = Some (p2 :: l2)
    ∧ In (s, d) (group_copies src dst index f p1 p2).
Proof.
  intros Hin.
  destruct (run_copies w src f1 f2 dst) as [H | (es & Hes & H)];
    rewrite H in Hin; [done|].
  apply copies_In, for_each_trace_In in Hin
    as ([index f] & n & Hx%enumerate_In & Hin%copies_In).
  apply process_copy_origin in Hin
    as (id & p1 & l1 & p2 & l2 & E & H1 & H2 & Hin).
  by exists es, index, f, id, p1, l1, p2, l2.
Qed.

Lemma indexed_path_origin triples id p l :
  build_index triples !! id = Some l → In p l →
  ∃ root file,
    In (root, file) (enumerated triples)
    ∧ p = PosixPath.join root file
    ∧ is_jpg file = true ∧ extract_identifier file = Some id.
Proof.
  rewrite build_index_lookup. intros Hl Hp.
  assert (In p (paths_for id triples)) as Hin.
  { destruct (paths_for id triples); [done|]. by simplify_eq/=. }
  unfold paths_for in Hin.
  apply in_map_iff in Hin as ([root file] & <- & [Hin Hid]%filter_In).
  unfold indexed_under in Hid. simpl in Hid.
  apply andb_true_iff in Hid as [Hjpg Hid%bool_decide_eq_true].
  by exists root, file.
Qed.

End Origin.

Lemma new_name_no_sep index slot folder path :
  has_char PosixPath.sep slot = false →
  has_char PosixPath.sep (new_name index slot folder path) = false.
Proof.
  intros Hs. unfold new_name.
  rewrite !has_char_app, Hs, !basename_has_no_sep.
  by rewrite (has_char_digits PosixPath.sep _ eq_refl
                (all_digits_format_04d index)).
Qed.

(** X5. Every copy of a run goes into the destination folder itself: its
    path is the destination folder joined with a name that holds no
    separator, so that the join keeps the folder, and this name is the
    last segment of the path. *)
Theorem copies_stay_in_destination (w : World) (src f1 f2 dst s d : string) :
  In (s, d) (copies (trace (find_matching_images w src f1 f2 dst))) →
  ∃ name,
    d = PosixPath.join dst name
    ∧ has_char PosixPath.sep name = false
    ∧ PosixPath.basename d = name
    ∧ Str.startswith name "/" = false.
Proof.
  intros (es & index & f & id & p1 & l1 & p2 & l2 & _ & _ & _ & _ & _ & Hin)
    %run_copy_origin.
  assert (∃ slot folder path,
            d = PosixPath.join dst (new_name index slot folder path)
            ∧ has_char PosixPath.sep slot = false)
    as (slot & folder & path & -> & Hslot).
  { unfold group_copies in Hin.
    destruct Hin as [[= _ <-] | [[= _ <-] | [[= _ <-] | []]]];
      eexists _, _, _; by split. }
  pose proof (new_name_no_sep index slot folder path Hslot) as Hname.
  exists (new_name index slot folder path). split; [done|]. split; [done|].
  split; [by rewrite basename_of_join, basename_no_sep_id|].
  unfold new_name. destruct (format_04d_cons index) as (c & t & -> & Hc).
  by apply startswith_digit.
Qed.

Lemma copies_stay_in_destination_witness :
  In ("f1/left/l_00099999.jpg", "out/0001_2_left_l_00099999.jpg")
     (copies (trace (find_matching_images Example.album
                       "data/src/" "f1" "f2/" "out")))
  ∧ ∃ name,
      "out/0001_2_left_l_00099999.jpg" = PosixPath.join "out" name
      ∧ has_char PosixPath.sep name = false.
Proof.
  assert (In ("f1/left/l_00099999.jpg", "out/0001_2_left_l_00099999.jpg")
            (copies (trace (find_matching_images Example.album
                              "data/src/" "f1" "f2/" "out")))) as Hin
    by (vm_compute; tauto).
  split; [exact Hin|].
  destruct (copies_stay_in_destination _ _ _ _ _ _ _ Hin)
    as (name & H1 & H2 & _).
  exists name. exact (conj H1 H2).
Defined.

(** X6. The files copied together have the same identifier: every copy
    of a run is made for a file of the source list, listed in the source
    folder, that passes the filter and has an identifier; what is copied
    is that file, or a file enumerated under the first or the second
    folder that passes the filter and has this identifier. *)
Theorem copied_files_share_identifier (w : World)
    (src f1 f2 dst s d : string) :
  In (s, d) (copies (trace (find_matching_images w src f1 f2 dst))) →
  ∃ entries index f id,
    source_dir w = Some entries
    ∧ source_list (map node_name entries) !! index = Some f
    ∧ In f (map node_name entries)
    ∧ is_jpg f = true
    ∧ extract_identifier f = Some id
    ∧ numbered dst index d
    ∧ (s = PosixPath.join src f
       ∨ ∃ root file,
           (In (root, file) (enumerated (walk f1 (folder1_dir w)))
            ∨ In (root, file) (enumerated (walk f2 (folder2_dir w))))
           ∧ s = PosixPath.join root file
           ∧ is_jpg file = true
           ∧ extract_identifier file = Some id).
Proof.
  intros (es & index & f & id & p1 & l1 & p2 & l2
          & Hes & Hf & E & H1 & H2 & Hin)%run_copy_origin.
  exists es, index, f, id. do 2 (split; [done|]).
  assert (In f (source_list (map node_name es))) as Hsl.
  { apply list_elem_of_In, list_elem_of_lookup. eauto. }
  unfold source_list in Hsl. apply filter_In in Hsl as [Hsorted Hjpg].
  split.
  { apply list_elem_of_In. rewrite <-(proj2 (sorted_spec _)).
    by apply list_elem_of_In. }
  do 2 (split; [done|]).
  split; [by apply (group_copies_numbered src dst index f p1 p2 (s, d))|].
  unfold group_copies in Hin.
  destruct Hin as [[= <- _] | [[= <- _] | [[= <- _] | []]]].
  - by left.
  - right. destruct (indexed_path_origin _ _ p1 _ H1 ltac:(by left))
      as (root & file & ? & ? & ? & ?).
    exists root, file. auto.
  - right. destruct (indexed_path_origin _ _ p2 _ H2 ltac:(by left))
      as (root & file & ? & ? & ? & ?).
    exists root, file. auto.
Qed.

Lemma copied_files_share_identifier_witness :
  In ("f2/right/deep/r_00055555.jpg", "out/0000_3_deep_r_00055555.jpg")
     (copies (trace (find_matching_images Example.album
                       "data/src/" "f1" "f2/" "out")))
  ∧ ∃ index f id,
      source_list ["b_00010001.jpg"; "a_00020002.jpg"; "photo_final.jpg";
                   "c_12345.jpg"; "sub"] !! index = Some f
      ∧ extract_identifier f = Some id
      ∧ numbered "out" index "out/0000_3_deep_r_00055555.jpg".
Proof.
  assert (In ("f2/right/deep/r_00055555.jpg", "out/0000_3_deep_r_00055555.jpg")
            (copies (trace (find_matching_images Example.album
                              "data/src/" "f1" "f2/" "out")))) as Hin
    by (vm_compute; tauto).
  split; [exact Hin|].
  destruct (copied_files_share_identifier _ _ _ _ _ _ _ Hin)
    as (es & index & f & id & Hes & Hf & _ & _ & E & Hn & _).
  injection Hes as <-. exists index, f, id. exact (conj Hf (conj E Hn)).
Defined.

(** ** How a run ends *)

Section Endings.
Context (w : World) (src dst : string).
Context (d1 d2 : gmap string (list string)).


Lemma for_each_no_match (xs : list (nat * string)) n :
  (∀ x, In x xs → full_match d1 d2 x.2 = false) →
  for_each (process w src dst d1 d2) xs n
  = (map (λ x, Print (match extract_identifier x.2 with
                      | Some id => line_no_match id
                      | None => line_no_identifier x.2
                      end)) xs,
     Ok n).
Proof.
  induction xs as [|[index f] xs IH]; intros H; [done|].
  rewrite for_each_cons.
  assert (process w src dst d1 d2 n (index, f)
          = ([Print (match extract_identifier f with
                     | Some id => line_no_match id
                     | None => line_no_identifier f
                     end)], Ok n)) as ->.
  { specialize (H (index, f) ltac:(by left)). simpl in H.
    destruct (extract_identifier f) as [id|] eqn:E.
    - apply process_no_match; [done|]. by apply (full_match_false d1 d2 f id).
    - by apply process_no_identifier. }
  rewrite bind_Ok, IH by (intros x Hx; apply H; by right). done.
Qed.




End Endings.



(** X8. When one of the two folders cannot be read, no source file has a
    match. When no file of the source list has a match, whatever the
    reason, a run that could create the destination folder and list the
    source folder copies nothing, prints one line for each file of the
    source list, in order, then a total of 0, and ends without error. *)
Theorem run_without_match (w : World) (src f1 f2 dst : string)
    (entries : list node) :
  let d1 := build_index (walk f1 (folder1_dir w)) in
  let d2 := build_index (walk f2 (folder2_dir w)) in
  let files := source_list (map node_name entries) in
  (folder1_dir w = None ∨ folder2_dir w = None →
   ∀ f, full_match d1 d2 f = false)
  ∧ (makedirs_ok w = true → source_dir w = Some entries →
     (∀ f, In f files → full_match d1 d2 f = false) →
     find_matching_images w src f1 f2 dst
     = (Makedirs dst
          :: map (λ f, Print (match extract_identifier f with
                              | Some id => line_no_match id
                              | None => line_no_identifier f
                              end)) files
          ++ [Print (line_total 0)],
        Ok tt)).
Proof.
  intros d1 d2 files. split.
  - intros H f. unfold full_match, contains.
    destruct (extract_identifier f) as [id|]; [|done].
    destruct H as [H | H]; [unfold d1 | unfold d2]; rewrite H;
      unfold walk, build_index; simpl; rewrite lookup_empty;
      rewrite (bool_decide_eq_false_2 (is_Some None)) by (by intros [? ?]);
      [done | apply andb_false_r].
  - intros Hmk Hsrc Hno.
    rewrite (run_pass w src f1 f2 dst entries Hmk Hsrc). cbn zeta.
    unfold matching_pass. fold d1 d2 files.
    rewrite for_each_no_match.
    + unfold trace, result. cbn [fst snd]. do 3 f_equal.
      match goal with
      | |- _ = map ?h _ => trans (map h (map snd (enumerate files)))
      end; [by rewrite map_map | by rewrite enumerate_snd].
    + intros [index f] Hx%enumerate_In. apply Hno.
      apply list_elem_of_In, list_elem_of_lookup. eauto.
Qed.

Lemma run_without_match_witness :
  find_matching_images
    {| source_dir := Some [File "b_00010001.jpg"; File "photo_final.jpg"];
       folder1_dir := Some [File "m_00012345.jpg"];
       folder2_dir := None;
       makedirs_ok := true;
       copy2_ok := λ _ _, false |}
    "shots" "left" "right" "out"
  = ([Makedirs "out"; Print (line_no_match "000");
      Print (line_no_identifier "photo_final.jpg"); Print (line_total 0)],
     Ok tt).
Proof.
  set (w := {| source_dir := Some [File "b_00010001.jpg";
                                   File "photo_final.jpg"];
               folder1_dir := Some [File "m_00012345.jpg"];
               folder2_dir := None;
               makedirs_ok := true;
               copy2_ok := λ _ _, false |}).
  destruct (run_without_match w "shots" "left" "right" "out"
              [File "b_00010001.jpg"; File "photo_final.jpg"]) as [Hnone Hrun].
  exact (Hrun eq_refl eq_refl (λ f _, Hnone (or_intror eq_refl) f)).
Defined.

(** ** The order of the listings *)

Lemma sorted_Permutation (l l' : list string) :
  l ≡ₚ l' → sorted l = sorted l'.
Proof.
  intros H. apply (StronglySorted_unique String.le).
  - apply sorted_spec.
  - apply sorted_spec.
  - etrans; [apply sorted_spec|]. etrans; [exact H|].
    symmetry. apply sorted_spec.
Qed.

(** X9. The order in which the operating system lists the source folder
    does not matter: two listings with the same names, in any order, give
    the same source list and the same run. *)
Theorem listing_order_irrelevant (w : World) (src f1 f2 dst : string)
    (es es' : list node) :
  map node_name es ≡ₚ map node_name es' →
  source_list (map node_name es) = source_list (map node_name es')
  ∧ find_matching_images (with_source w (Some es)) src f1 f2 dst
    = find_matching_images (with_source w (Some es')) src f1 f2 dst.
Proof.
  intros H.
  assert (source_list (map node_name es) = source_list (map node_name es'))
    as Hsl by (unfold source_list; by rewrite (sorted_Permutation _ _ H)).
  split; [done|].
  unfold find_matching_images, listdir_source. simpl.
  unfold mbind, M_bind, mret, M_ret. cbn beta iota. by rewrite Hsl.
Qed.

Lemma listing_order_irrelevant_witness :
  find_matching_images
    (with_source Example.pair_of_sources
       (Some [File "b_00010001.jpg"; File "a_00020002.jpg"]))
    "shots" "left" "right" "out"
  = find_matching_images
      (with_source Example.pair_of_sources
         (Some [File "a_00020002.jpg"; File "b_00010001.jpg"]))
      "shots" "left" "right" "out".
Proof.
  apply (listing_order_irrelevant Example.pair_of_sources).
  simpl. apply perm_swap.
Defined.

(** ** The order of the traversal *)

Section TraversalOrder.
Context {A B : Type}.

Lemma filter_flat_map (p : B → bool) (f : A → list B) (l : list A) :
  List.filter p (flat_map f l) = flat_map (λ x, List.filter p (f x)) l.
Proof.
  induction l as [|x l IH]; simpl; [done|].
  by rewrite List.filter_app, IH.
Qed.

Lemma map_flat_map {C} (g : B → C) (f : A → list B) (l : list A) :
  map g (flat_map f l) = flat_map (λ x, map g (f x)) l.
Proof.
  induction l as [|x l IH]; simpl; [done|]. by rewrite map_app, IH.
Qed.

End TraversalOrder.

Lemma enumerated_flat_map {A} (f : A → list (string * list string * list string))
    (l : list A) :
  enumerated (flat_map f l) = flat_map (λ x, enumerated (f x)) l.
Proof.
  induction l as [|x l IH]; simpl; [done|].
  by rewrite enumerated_app, IH.
Qed.

Lemma paths_of_folder (id top : string) (l : list string) :
  map (λ rf, PosixPath.join rf.1 rf.2)
      (List.filter (indexed_under id) (map (pair top) l))
  = map (PosixPath.join top)
        (List.filter (λ file, indexed_under id (top, file)) l).
Proof.
  induction l as [|file l IH]; [done|]. simpl.
  destruct (indexed_under id (top, file)); simpl; by rewrite IH.
Qed.

(** X10. The sequence of an identifier follows the traversal: first the
    files of the folder itself, in the order of its listing, then what
    each entry that is a directory gives, in the same way, one directory
    after the other. So a candidate that lies in the folder itself is
    chosen before any candidate of a sub-directory. *)
Theorem paths_for_walk (top : string) (entries : list node) (id : string) :
  let here :=
    List.filter (λ file, indexed_under id (top, file)) (file_names entries) in
  paths_for id (walk top (Some entries))
  = map (PosixPath.join top) here
    ++ flat_map (λ n, match n with
                      | File _ => []
                      | Folder d sub =>
                          paths_for id (walk (PosixPath.join top d) (Some sub))
                      end) entries
  ∧ (∀ file rest,
       here = file :: rest →
       ∃ l, build_index (walk top (Some entries)) !! id
            = Some (PosixPath.join top file :: l)).
Proof.
  intros here.
  assert (paths_for id (walk top (Some entries))
          = map (PosixPath.join top) here
            ++ flat_map (λ n, match n with
                              | File _ => []
                              | Folder d sub =>
                                  paths_for id
                                    (walk (PosixPath.join top d) (Some sub))
                              end) entries) as E.
  { unfold paths_for, walk.
    change (enumerated (?x :: ?l)) with (enumerated ([x] ++ l)).
    rewrite enumerated_app, List.filter_app, map_app. f_equal.
    - unfold enumerated. simpl. rewrite app_nil_r. apply paths_of_folder.
    - rewrite enumerated_flat_map, filter_flat_map, map_flat_map.
      apply flat_map_ext. by intros []. }
  split; [done|]. intros file rest Hh.
  rewrite build_index_lookup, E, Hh. simpl. eauto.
Qed.

Lemma paths_for_walk_witness :
  List.filter (λ file, indexed_under "000" ("f1", file))
              (file_names [Folder "left" [File "l_00099999.jpg"];
                           File "x_00012345.jpg"])
  = ["x_00012345.jpg"]
  ∧ ∃ l, build_index (walk "f1" (Some [Folder "left" [File "l_00099999.jpg"];
                                       File "x_00012345.jpg"])) !! "000"
         = Some ("f1/x_00012345.jpg" :: l).
Proof.
  split; [reflexivity|].
  exact (proj2 (paths_for_walk "f1" [Folder "left" [File "l_00099999.jpg"];
                                     File "x_00012345.jpg"] "000")
           "x_00012345.jpg" [] eq_refl).
Defined.

(** X11. The keys of a candidate index are non-empty strings of digits
    and its sequences are never empty. The index of one traversal
    followed by another has, for every identifier, the paths of the first
    followed by the paths of the second; indexing one more file appends
    its path to the sequence of its identifier and changes no other
    sequence. *)
Theorem index_keys_and_sequences
    (t t' : list (string * list string * list string)) (id : string) :
  (∀ l, build_index t !! id = Some l →
        id ≠ "" ∧ Str.all_digits id = true ∧ l ≠ [] ∧ l = paths_for id t)
  ∧ paths_for id (t ++ t') = paths_for id t ++ paths_for id t'
  ∧ build_index (t ++ t') !! id
    = extend (build_index t !! id) (paths_for id t')
  ∧ (∀ root file d,
       index_file root d file !! id
       = if is_jpg file && bool_decide (extract_identifier file = Some id)
         then Some (default [] (d !! id) ++ [PosixPath.join root file])
         else d !! id).
Proof.
  assert (paths_for id (t ++ t') = paths_for id t ++ paths_for id t') as Happ.
  { unfold paths_for. by rewrite enumerated_app, List.filter_app, map_app. }
  split; [|split; [done|split]].
  - intros l Hl. pose proof (build_index_nonempty _ _ _ Hl) as Hne.
    rewrite build_index_lookup in Hl.
    destruct (paths_for id t) as [|p ps] eqn:Hp; [done|].
    simpl in Hl. simplify_eq.
    assert (In p (paths_for id t)) as Hin by (rewrite Hp; by left).
    unfold paths_for in Hin.
    apply in_map_iff in Hin as ([root file] & _ & [_ Hid]%filter_In).
    unfold indexed_under in Hid.
    apply andb_true_iff in Hid as [_ Hid%bool_decide_eq_true].
    destruct (extract_identifier_Some _ _ Hid). done.
  - rewrite !build_index_lookup, Happ.
    by rewrite <-extend_extend.
  - intros root file d. rewrite index_file_lookup. unfold indexed_under.
    simpl. by destruct (is_jpg file && _).
Qed.

Lemma index_keys_and_sequences_witness :
  build_index (walk "f1" (folder1_dir Example.album)) !! "000"
  = Some ["f1/left/l_00099999.jpg"; "f1/left/l_00011111.jpg"]
  ∧ Str.all_digits "000" = true
  ∧ ["f1/left/l_00099999.jpg"; "f1/left/l_00011111.jpg"]
    = paths_for "000" (walk "f1" (folder1_dir Example.album)).
Proof.
  split; [reflexivity|].
  destruct (proj1 (index_keys_and_sequences
                     (walk "f1" (folder1_dir Example.album)) [] "000")
              ["f1/left/l_00099999.jpg"; "f1/left/l_00011111.jpg"] eq_refl)
    as (_ & Hd & _ & Hp).
  exact (conj Hd Hp).
Defined.

(** ** Numbers and the order of names *)

Section DecimalOrder.
Implicit Types (a b s t : string) (c d : ascii) (n m acc : nat).

Lemma dec_value_from_spec acc s :
  dec_value_from acc s = acc * 10 ^ String.length s + dec_value s.
Proof.
  unfold dec_value. revert acc.
  induction s as [|c s IH]; intros acc; cbn [dec_value_from String.length].
  - rewrite Nat.pow_0_r. lia.
  - rewrite (IH (10 * acc + digit_value c)), (IH (10 * 0 + digit_value c)).
    rewrite Nat.pow_succ_r'. lia.
Qed.

Lemma dec_value_cons c s :
  dec_value (String c s) = digit_value c * 10 ^ String.length s + dec_value s.
Proof.
  unfold dec_value at 1. cbn [dec_value_from].
  rewrite dec_value_from_spec. lia.
Qed.

Lemma digit_value_bound c : Str.is_digit c = true → digit_value c ≤ 9.
Proof.
  unfold Str.is_digit, digit_value.
  intros [_ H%Nat.leb_le]%andb_true_iff. lia.
Qed.

Lemma dec_value_bound s :
  Str.all_digits s = true → dec_value s < 10 ^ String.length s.
Proof.
  induction s as [|c s IH]; simpl; [unfold dec_value; simpl; lia|].
  intros [Hc%digit_value_bound Hs%IH]%andb_true_iff.
  rewrite dec_value_cons. nia.
Qed.

Lemma of_uint_acc_dec (u : Decimal.uint) acc :
  Nat.of_uint_acc u acc = dec_value_from acc (NilEmpty.string_of_uint u).
Proof.
  revert acc. induction u; intros acc; simpl; [done|..];
    rewrite Nat.tail_mul_spec, IHu; f_equal; unfold digit_value; simpl; lia.
Qed.

Lemma dec_value_of_nat n : dec_value (Str.of_nat n) = n.
Proof.
  unfold dec_value, Str.of_nat. rewrite <-of_uint_acc_dec.
  apply Unsigned.of_to.
Qed.

Lemma dec_value_zeros k s : dec_value (Str.times "0" k +:+ s) = dec_value s.
Proof. induction k as [|k IH]; [done|]. simpl. by rewrite dec_value_cons in *. Qed.

Lemma dec_value_format_04d n : dec_value (Str.format_04d n) = n.
Proof. unfold Str.format_04d. by rewrite dec_value_zeros, dec_value_of_nat. Qed.

Lemma leading_digit_size c s :
  1 ≤ digit_value c →
  10 ^ (String.length (String c s) - 1) ≤ dec_value (String c s).
Proof.
  intros Hc. rewrite dec_value_cons. cbn [String.length].
  replace (S (String.length s) - 1) with (String.length s) by lia. nia.
Qed.

(** A number written without padding has as many digits as its size
    asks for. *)
Lemma of_nat_size n :
  10 ^ (String.length (Str.of_nat n) - 1) ≤ n ∨ Str.of_nat n = "0".
Proof.
  pose proof (dec_value_of_nat n) as Hv. unfold Str.of_nat in *.
  assert (Nat.to_uint n = Decimal.unorm (Nat.to_uint n)) as Hn.
  { rewrite <-Unsigned.to_of. by rewrite Unsigned.of_to. }
  destruct (Decimal.uint_eq_dec (Decimal.nzhead (Nat.to_uint n))
              Decimal.Nil) as [Hz | Hnz].
  - right. apply DecimalFacts.unorm_0 in Hz. by rewrite Hn, Hz.
  - left. pose proof (DecimalFacts.nzhead_nonzero (Nat.to_uint n)) as Hh.
    assert (Decimal.nzhead (Nat.to_uint n) = Nat.to_uint n) as Hu.
    { rewrite <-(DecimalFacts.unorm_nzhead _ Hnz). by rewrite <-Hn. }
    rewrite Hu in Hh. rewrite Hu in Hnz. clear Hu Hn.
    rewrite <-Hv at 2. clear Hv. revert Hh Hnz.
    generalize (Nat.to_uint n). intros u Hh Hnz.
    destruct u as [|u|u|u|u|u|u|u|u|u|u]; try done;
      [by destruct (Hh u)|..];
      cbn [NilEmpty.string_of_uint]; apply leading_digit_size;
      unfold digit_value; simpl; lia.
Qed.

Lemma length_format_04d_small n :
  n < 10000 → String.length (Str.format_04d n) = 4.
Proof.
  intros Hn. rewrite length_format_04d.
  destruct (of_nat_size n) as [H | ->]; [|done].
  destruct (Nat.le_gt_cases (String.length (Str.of_nat n)) 4) as [|Hgt];
    [lia|].
  assert (10 ^ 4 ≤ 10 ^ (String.length (Str.of_nat n) - 1)).
  { apply Nat.pow_le_mono_r; lia. }
  change (10 ^ 4) with 10000 in *. lia.
Qed.

Lemma code_compare_Gt c d :
  Ascii.compare c d = Gt → Str.code d < Str.code c.
Proof.
  unfold Ascii.compare, Str.code, nat_of_ascii.
  intros H%N.compare_gt_iff. lia.
Qed.

Lemma ascii_compare_refl c : Ascii.compare c c = Eq.
Proof. apply N.compare_refl. Qed.

(** Among strings of digits of the same length, the order of the strings
    is the order of the numbers. *)
Lemma compare_digits a b :
  Str.all_digits a = true → Str.all_digits b = true →
  String.length a = String.length b →
  dec_value a < dec_value b → String.compare a b = Lt.
Proof.
  revert b. induction a as [|c a IH]; intros [|d b] Ha Hb Hl Hv;
    simpl in *; try done.
  - unfold dec_value in Hv. simpl in Hv. lia.
  - apply andb_true_iff in Ha as [Hc Ha].
    apply andb_true_iff in Hb as [Hd Hb].
    rewrite !dec_value_cons in Hv. injection Hl as Hl.
    pose proof (dec_value_bound a Ha). pose proof (dec_value_bound b Hb).
    rewrite Hl in *.
    destruct (Ascii.compare c d) eqn:Hcd.
    + apply Ascii.compare_eq_iff in Hcd as ->. apply IH; try done. lia.
    + done.
    + apply code_compare_Gt in Hcd. exfalso.
      unfold Str.is_digit in Hc, Hd. unfold digit_value in Hv.
      apply andb_true_iff in Hc as [Hc%Nat.leb_le _].
      apply andb_true_iff in Hd as [Hd%Nat.leb_le _]. nia.
Qed.

Lemma compare_app_same s a b :
  String.compare (s +:+ a) (s +:+ b) = String.compare a b.
Proof.
  induction s as [|c s IH]; [done|]. simpl. by rewrite ascii_compare_refl.
Qed.

Lemma compare_app_Lt a b s t :
  String.length a = String.length b → String.compare a b = Lt →
  String.compare (a +:+ s) (b +:+ t) = Lt.
Proof.
  revert b. induction a as [|c a IH]; intros [|d b] Hl H; simpl in *;
    try done.
  destruct (Ascii.compare c d); try done. apply IH; [lia | done].
Qed.

(** Below 10000 the order of the padded numbers is the order of the
    numbers. *)
Lemma compare_format_04d n m :
  n < m → m < 10000 →
  String.compare (Str.format_04d n) (Str.format_04d m) = Lt.
Proof.
  intros Hnm Hm. apply compare_digits.
  - apply all_digits_format_04d.
  - apply all_digits_format_04d.
  - rewrite !length_format_04d_small; [done | lia | lia].
  - by rewrite !dec_value_format_04d.
Qed.

End DecimalOrder.

(** ** The order of the destinations *)

Section DestinationOrder.
Context (w : World) (src dst : string).
Context (d1 d2 : gmap string (list string)).
Implicit Types (n index i j : nat) (f d : string).

Lemma name_lt_le a b : name_lt a b → String.le a b.
Proof.
  unfold name_lt, String.le, String.leb. by intros ->.
Qed.

Lemma numbered_lt i j d d' :
  i < j → j < 10000 →
  numbered dst i d → numbered dst j d' → name_lt d d'.
Proof.
  intros Hij Hj [s ->] [s' ->]. unfold name_lt.
  destruct (format_04d_cons i) as (c & t & Ei & Hc).
  destruct (format_04d_cons j) as (c' & t' & Ej & Hc').
  rewrite !join_relative
    by (rewrite ?Ei, ?Ej; simpl; by eapply startswith_digit).
  rewrite !compare_app_same. apply compare_app_Lt.
  - rewrite !length_format_04d_small; [done | lia | lia].
  - by apply compare_format_04d.
Qed.

Lemma group_copies_sorted index f p1 p2 :
  StronglySorted name_lt (map snd (group_copies src dst index f p1 p2)).
Proof.
  destruct (format_04d_cons index) as (c & t & Ei & Hc).
  assert (∀ (a b : ascii) x y,
            Ascii.compare a b = Lt →
            name_lt
              (PosixPath.join dst
                 (Str.format_04d index +:+ "_" +:+ String a x))
              (PosixPath.join dst
                 (Str.format_04d index +:+ "_" +:+ String b y))) as Hslot.
  { intros a b x y Hab. unfold name_lt.
    rewrite !join_relative
      by (rewrite ?Ei; simpl; by eapply startswith_digit).
    rewrite !compare_app_same.
    change ("_" +:+ ?z) with (String "_"%char z). cbn [String.compare].
    by rewrite Hab. }
  unfold group_copies, new_name. cbn [map snd].
  repeat constructor; by apply Hslot.
Qed.

Lemma take_sorted {A} (R : relation A) (l : list A) k :
  StronglySorted R l → StronglySorted R (take k l).
Proof.
  intros H. rewrite <-(take_drop k l) in H.
  by apply StronglySorted_app_1_l in H.
Qed.

Lemma process_destinations_sorted n index f :
  StronglySorted name_lt
    (destinations (trace (process w src dst d1 d2 n (index, f)))).
Proof.
  unfold destinations.
  destruct (process_copies w src dst d1 d2 n index f)
    as [-> | (p1 & p2 & k & _ & ->)]; [constructor|].
  rewrite <-firstn_map. apply take_sorted, group_copies_sorted.
Qed.

Lemma for_each_destinations_sorted (xs : list (nat * string)) n :
  StronglySorted lt (map fst xs) →
  Forall (λ i, i < 10000) (map fst xs) →
  StronglySorted name_lt
    (destinations (trace (for_each (process w src dst d1 d2) xs n))).
Proof.
  revert n. induction xs as [|[index f] xs IH]; intros n Hs Hb.
  - constructor.
  - simpl in Hs, Hb. apply StronglySorted_cons in Hs as [Hlt Hs].
    apply Forall_cons in Hb as [Hi Hb].
    rewrite for_each_cons, trace_bind. unfold destinations.
    rewrite copies_app, map_app.
    fold (destinations (trace (process w src dst d1 d2 n (index, f)))).
    pose proof (process_destinations_sorted n index f) as Hp.
    destruct (process_destinations w src dst d1 d2 n index f) as [_ Hpn].
    destruct (result (process w src dst d1 d2 n (index, f))) as [n'|];
      [|simpl; by rewrite app_nil_r].
    fold (destinations (trace (for_each (process w src dst d1 d2) xs n'))).
    apply StronglySorted_app_2; [|done|by apply IH].
    intros x1 x2 Hx1%list_elem_of_In Hx2%list_elem_of_In.
    assert (NoDup (map fst xs)) as Hnd.
    { clear -Hs. induction Hs as [|i l Hs IH Hi]; [constructor|].
      apply NoDup_cons. split; [|done].
      intros Hin. rewrite Forall_forall in Hi. specialize (Hi _ Hin). lia. }
    destruct (for_each_destinations w src dst d1 d2 xs n' Hnd) as [_ Hln].
    destruct (Hln x2 Hx2) as (j & Hj%list_elem_of_In & Hnj).
    rewrite Forall_forall in Hlt, Hb.
    apply (numbered_lt index j); auto.
Qed.

End DestinationOrder.

Lemma sorted_weaken {A} (R R' : relation A) (l : list A) :
  (∀ x y, R x y → R' x y) → StronglySorted R l → StronglySorted R' l.
Proof.
  intros HR. induction 1 as [|x l _ IH Hx]; constructor; [done|].
  eapply Forall_impl; [exact Hx | auto].
Qed.

Lemma seq_sorted i n : StronglySorted lt (seq i n).
Proof.
  revert i. induction n as [|n IH]; intros i; simpl; constructor; [done|].
  apply Forall_seq. lia.
Qed.

(** X12. As long as the source list has at most 10000 files, the names
    given to the copies of a run come in the order of [sorted], in which
    the copies are made: the groups in the order of the source list, and
    in a group the source file, then the file of the first folder, then
    the file of the second. From 10000 on this fails: the group 10000
    sorts before the group 9999. *)
Theorem destinations_in_sorted_order (w : World) (src f1 f2 dst : string)
    (entries : list node) :
  source_dir w = Some entries →
  length (source_list (map node_name entries)) ≤ 10000 →
  StronglySorted name_lt
    (destinations (trace (find_matching_images w src f1 f2 dst)))
  ∧ sorted (destinations (trace (find_matching_images w src f1 f2 dst)))
    = destinations (trace (find_matching_images w src f1 f2 dst))
  ∧ (∀ s s',
       name_lt (PosixPath.join dst (Str.format_04d 10000 +:+ "_" +:+ s))
               (PosixPath.join dst (Str.format_04d 9999 +:+ "_" +:+ s'))).
Proof.
  intros Hsrc Hlen.
  assert (StronglySorted name_lt
            (destinations (trace (find_matching_images w src f1 f2 dst))))
    as Hsorted.
  { unfold destinations.
    destruct (run_copies w src f1 f2 dst) as [-> | (es & Hes & ->)];
      [constructor|].
    assert (es = entries) as -> by congruence.
    apply for_each_destinations_sorted.
    - rewrite enumerate_fst. apply seq_sorted.
    - rewrite enumerate_fst. apply Forall_seq. lia. }
  split; [done|]. split.
  - apply (StronglySorted_unique String.le).
    + apply sorted_spec.
    + eapply sorted_weaken; [|exact Hsorted].
      intros a b. apply name_lt_le.
    + apply sorted_spec.
  - intros s s'. unfold name_lt.
    rewrite !join_relative by done. by rewrite !compare_app_same.
Qed.

Lemma destinations_in_sorted_order_witness :
  sorted ["out/0000_1_src_a_00020002.jpg"; "out/0000_2_left_l_00099999.jpg";
          "out/0000_3_deep_r_00055555.jpg"; "out/0001_1_src_b_00010001.jpg";
          "out/0001_2_left_l_00099999.jpg"; "out/0001_3_deep_r_00055555.jpg"]
  = destinations (trace (find_matching_images Example.album
                           "data/src/" "f1" "f2/" "out")).
Proof.
  destruct (destinations_in_sorted_order Example.album
              "data/src/" "f1" "f2/" "out" _ eq_refl) as (_ & H & _).
  { vm_compute. lia. }
  etrans; [|exact H]. by vm_compute.
Defined.

(** ** The folder that names a group *)

Section FolderName.
Implicit Types (a b s t d : string) (c x : ascii).

Lemma snoc_cases s : s = "" ∨ ∃ s' x, s = s' +:+ String x "".
Proof.
  induction s as [|c s IH]; [by left|]. right.
  destruct IH as [-> | (s' & x & ->)].
  - by exists "", c.
  - by exists (String c s'), x.
Qed.

Lemma snoc_not_nil s x t : s +:+ String x t ≠ "".
Proof. by destruct s. Qed.

Lemma rstrip_snoc c s x :
  x ≠ c → Str.rstrip c (s +:+ String x "") = s +:+ String x "".
Proof.
  intros Hx. induction s as [|y s IH]; simpl.
  - by apply Ascii.eqb_neq in Hx as ->.
  - rewrite IH. destruct (s +:+ String x "") eqn:E; [|done].
    by destruct (snoc_not_nil s x "").
Qed.

Lemma rstrip_app_sep c s :
  Str.rstrip c (s +:+ String c "") = Str.rstrip c s.
Proof.
  induction s as [|y s IH]; simpl.
  - by rewrite Ascii.eqb_refl.
  - by rewrite IH.
Qed.

Lemma times_inv c n s x t : s +:+ String x t = Str.times c n → x = c.
Proof.
  revert n. induction s as [|y s IH]; intros [|n] H; simpl in *;
    simplify_eq; eauto.
Qed.

(** The directory of a file joined to a path that ends in a name. *)
Lemma dirname_join_name s x file :
  x ≠ PosixPath.sep → has_char PosixPath.sep file = false →
  PosixPath.dirname (PosixPath.join (s +:+ String x "") file)
  = s +:+ String x "".
Proof.
  intros Hx Hf. set (r := s +:+ String x "").
  assert (Str.startswith file "/" = false) as Hfs.
  { destruct file as [|y file]; [done|]. simpl in Hf.
    apply orb_false_iff in Hf as [Hy _]. unfold PosixPath.sep in Hy.
    unfold Str.startswith, Str.slice_to.
    cbn [String.length String.substring String.eqb]. by rewrite Hy. }
  assert (Str.endswith r "/" = false) as Hend.
  { destruct (Str.endswith r "/") eqn:E; [|done].
    apply endswith_inv in E as [pre E]. unfold r in E.
    destruct (app_suffix_eq _ _ _ _ E eq_refl) as [_ [= ->]]. done. }
  assert (PosixPath.join r file = (r +:+ "/") +:+ file) as ->.
  { unfold PosixPath.join. rewrite Hfs, Hend.
    destruct (String.eqb_spec r "") as [E|_];
      [by destruct (snoc_not_nil s x "")|].
    simpl. by rewrite app_assoc_s. }
  unfold PosixPath.dirname.
  assert (Str.rfind1 PosixPath.sep ((r +:+ "/") +:+ file)
          = String.length (r +:+ "/")) as ->.
  { rewrite rfind1_app. apply rfind1_zero in Hf as ->.
    rewrite rfind1_app. simpl Str.rfind1.
    rewrite length_app_s. simpl. lia. }
  unfold Str.slice_to. rewrite substring_app_l.
  destruct (String.eqb_spec (r +:+ "/") "") as [E|_];
    [by destruct (snoc_not_nil r "/" "")|].
  destruct (String.eqb_spec (r +:+ "/")
              (Str.times PosixPath.sep (String.length (r +:+ "/"))))
    as [E|_].
  - unfold r in E. rewrite app_assoc_s in E. simpl in E.
    by apply times_inv in E.
  - simpl. change "/" with (String PosixPath.sep "").
    rewrite rstrip_app_sep. by apply rstrip_snoc.
Qed.

Lemma split_cons_shape c s :
  ∃ (h : string) (tl : list string), Str.split c s = h :: tl.
Proof.
  induction s as [|a s (h & tl & IH)]; simpl; [eauto|].
  destruct (Ascii.eqb a c); [eauto|]. rewrite IH. eauto.
Qed.

Lemma split_no_sep c d : has_char c d = false → Str.split c d = [d].
Proof.
  induction d as [|a d IH]; simpl; [done|].
  intros [-> Hd]%orb_false_iff. by rewrite (IH Hd).
Qed.

Lemma split_app_sep c s d :
  has_char c d = false →
  Str.split c (s +:+ String c d) = Str.split c s ++ [d].
Proof.
  intros Hd. induction s as [|a s IH]; simpl.
  - by rewrite Ascii.eqb_refl, (split_no_sep c d Hd).
  - rewrite IH. destruct (Ascii.eqb a c); [done|].
    by destruct (split_cons_shape c s) as (h & tl & ->).
Qed.

Lemma concat_snoc (sep : string) (l : list string) d :
  String.concat sep (l ++ [d])
  = match l with
    | [] => d
    | _ => String.concat sep l +:+ sep +:+ d
    end.
Proof.
  induction l as [|x l IH]; [done|]. simpl.
  destruct l as [|y l]; [done|]. simpl in *. by rewrite IH, !app_assoc_s.
Qed.

Lemma normpath_step_name k comps d :
  d ≠ "" → d ≠ "." → d ≠ ".." →
  PosixPath.normpath_step k comps d = comps ++ [d].
Proof.
  intros H1%String.eqb_neq H2%String.eqb_neq H3%String.eqb_neq.
  unfold PosixPath.normpath_step. by rewrite H1, H2, H3.
Qed.

(** The last segment of the normalised form of a path that ends in a
    name is that name. *)
Lemma basename_normpath_name s d :
  (s = "" ∨ ∃ s', s = s' +:+ "/") →
  d ≠ "" → d ≠ "." → d ≠ ".." → has_char PosixPath.sep d = false →
  PosixPath.basename (PosixPath.normpath (s +:+ d)) = d.
Proof.
  intros Hs H1 H2 H3 Hd. unfold PosixPath.normpath.
  destruct (String.eqb_spec (s +:+ d) "") as [E|_].
  { destruct s; [done | discriminate]. }
  set (k := if Str.startswith (s +:+ d) "/" then _ else 0).
  assert (∃ l, Str.split PosixPath.sep (s +:+ d) = l ++ [d]) as [l ->].
  { destruct Hs as [-> | [s' ->]].
    - exists []. by apply split_no_sep.
    - exists (Str.split PosixPath.sep s'). rewrite app_assoc_s.
      by apply split_app_sep. }
  rewrite fold_left_app. cbn [fold_left].
  rewrite normpath_step_name by done. rewrite concat_snoc.
  set (cs := fold_left (PosixPath.normpath_step k) l []).
  assert (∃ pre, (pre = "" ∨ ∃ p, pre = p +:+ "/")
                 ∧ Str.times PosixPath.sep k
                   +:+ match cs with
                       | [] => d
                       | _ :: _ => String.concat "/" cs +:+ "/" +:+ d
                       end
                   = pre +:+ d) as (pre & Hpre & ->).
  { destruct cs as [|c0 cs'].
    - exists (Str.times PosixPath.sep k). split; [|done].
      unfold k. destruct (Str.startswith _ "/"); [|by left].
      right. destruct (_ && _); [by exists "/" | by exists ""].
    - exists (Str.times PosixPath.sep k +:+ String.concat "/" (c0 :: cs')
              +:+ "/").
      split; [right; eexists; by rewrite <-app_assoc_s|].
      by rewrite !app_assoc_s. }
  destruct (String.eqb_spec (pre +:+ d) "") as [E|_].
  { destruct pre; [done | discriminate]. }
  rewrite basename_app, Hd.
  destruct Hpre as [-> | [p ->]]; [done|].
  by rewrite basename_ends_with_sep.
Qed.

Lemma times_snoc c n :
  Str.times c (S n) = Str.times c n +:+ String c "".
Proof. induction n as [|n IH]; [done|]. simpl in *. by rewrite <-IH. Qed.

(** A string is what [rstrip] leaves of it, followed by the characters
    that [rstrip] removes. *)
Lemma rstrip_decomp c s :
  ∃ n, s = Str.rstrip c s +:+ Str.times c n
       ∧ (Str.rstrip c s = ""
          ∨ ∃ s0 x, Str.rstrip c s = s0 +:+ String x "" ∧ x ≠ c).
Proof.
  induction s as [|a s (n & Hs & Hr)]; [by exists 0; split; [|left]|].
  simpl. destruct (Str.rstrip c s) as [|b r] eqn:E.
  - destruct (Ascii.eqb_spec a c) as [->|Ha].
    + exists (S n). split; [by rewrite Hs at 1 | by left].
    + exists n. split; [by rewrite Hs at 1|]. right. by exists "", a.
  - exists n. split; [by rewrite Hs at 1|]. right.
    destruct Hr as [? | (s0 & x & Hr & Hx)]; [done|].
    exists (String a s0), x. by rewrite Hr.
Qed.

Lemma rstrip_empty_iff c s :
  Str.rstrip c s = "" ↔ s = Str.times c (String.length s).
Proof.
  induction s as [|a s IH]; [done|]. simpl.
  destruct (Str.rstrip c s) as [|b r].
  - destruct (Ascii.eqb_spec a c) as [->|Ha].
    + split; [intros _; f_equal; by apply IH | done].
    + split; [done | intros [= ? _]; done].
  - split; [done | intros [= _ H]]. by apply IH in H.
Qed.

Lemma split_app_times c s n :
  Str.split c (s +:+ Str.times c n) = Str.split c s ++ repeat "" n.
Proof.
  induction n as [|n IH].
  - simpl. by rewrite app_nil_r_s, app_nil_r.
  - rewrite times_snoc, <-app_assoc_s, split_app_sep by done.
    rewrite IH, <-app_assoc. f_equal. symmetry. apply repeat_cons.
Qed.

Lemma normpath_step_empties k n comps :
  fold_left (PosixPath.normpath_step k) (repeat "" n) comps = comps.
Proof. induction n as [|n IH]; [done|]. simpl. apply IH. Qed.

Lemma substring_0_0 s : String.substring 0 0 s = "".
Proof. by destruct s. Qed.

Lemma substring_app_le s t n :
  n ≤ String.length s →
  String.substring 0 n (s +:+ t) = String.substring 0 n s.
Proof.
  revert n. induction s as [|a s IH]; intros [|n] Hn; simpl in *;
    try lia; try done.
  - apply substring_0_0.
  - f_equal. apply IH. lia.
Qed.

Lemma startswith_app_le s t pre :
  String.length pre ≤ String.length s →
  Str.startswith (s +:+ t) pre = Str.startswith s pre.
Proof.
  intros H. unfold Str.startswith, Str.slice_to.
  by rewrite substring_app_le.
Qed.

Local Abbreviation initial_slashes p :=
  (if Str.startswith p "/" then
     if Str.startswith p "//" && negb (Str.startswith p "///")
     then 2 else 1
   else 0).

(** What follows a name does not change the number of slashes that
    [normpath] keeps in front. *)
Lemma initial_slashes_app s x t :
  x ≠ PosixPath.sep →
  initial_slashes ((s +:+ String x "") +:+ t)
  = initial_slashes (s +:+ String x "").
Proof.
  intros Hx%Ascii.eqb_neq. unfold PosixPath.sep in Hx.
  destruct s as [|a [|b s]].
  - unfold Str.startswith, Str.slice_to.
    cbn [String.append String.length String.substring String.eqb].
    by rewrite Hx.
  - unfold Str.startswith, Str.slice_to.
    cbn [String.append String.length String.substring String.eqb].
    rewrite Hx. by destruct (Ascii.eqb a "/").
  - rewrite !(startswith_app_le _ t); [done|..];
      rewrite length_app_s; simpl; lia.
Qed.

(** Slashes after a name do not count for [normpath]. *)
Lemma normpath_trailing_slashes s x n :
  x ≠ PosixPath.sep →
  PosixPath.normpath ((s +:+ String x "") +:+ Str.times PosixPath.sep n)
  = PosixPath.normpath (s +:+ String x "").
Proof.
  intros Hx. unfold PosixPath.normpath.
  destruct (String.eqb_spec ((s +:+ String x "")
                             +:+ Str.times PosixPath.sep n) "") as [E|_].
  { rewrite app_assoc_s in E.
    by destruct (snoc_not_nil s x (Str.times PosixPath.sep n)). }
  destruct (String.eqb_spec (s +:+ String x "") "") as [E|_].
  { by destruct (snoc_not_nil s x ""). }
  rewrite (initial_slashes_app s x _ Hx), split_app_times, fold_left_app.
  by rewrite normpath_step_empties.
Qed.

Lemma rfind1_ends_with_sep c p file :
  has_char c file = false →
  Str.rfind1 c ((p +:+ String c "") +:+ file)
  = String.length (p +:+ String c "").
Proof.
  intros H%rfind1_zero. rewrite rfind1_app, H, rfind1_app. simpl.
  rewrite Ascii.eqb_refl, length_app_s. simpl. lia.
Qed.

(** The directory of a file joined to a path: the path without the
    slashes at its end, unless it is made of slashes only. *)
Lemma dirname_join root file :
  has_char PosixPath.sep file = false →
  PosixPath.dirname (PosixPath.join root file)
  = if String.eqb (Str.rstrip PosixPath.sep root) "" then root
    else Str.rstrip PosixPath.sep root.
Proof.
  intros Hf.
  assert (Str.startswith file "/" = false) as Hfs.
  { destruct file as [|y file]; [done|]. simpl in Hf.
    apply orb_false_iff in Hf as [Hy _]. unfold PosixPath.sep in Hy.
    unfold Str.startswith, Str.slice_to.
    cbn [String.length String.substring String.eqb]. by rewrite Hy. }
  destruct (snoc_cases root) as [-> | (p & x & ->)].
  - unfold PosixPath.join. rewrite Hfs. simpl.
    unfold PosixPath.dirname. apply rfind1_zero in Hf as ->.
    unfold Str.slice_to. by rewrite substring_0_0.
  - destruct (Ascii.eqb_spec x PosixPath.sep) as [->|Hx].
    + set (root := p +:+ String PosixPath.sep "").
      assert (PosixPath.join root file = root +:+ file) as ->.
      { unfold PosixPath.join. rewrite Hfs.
        change "/" with (String PosixPath.sep ""). unfold root.
        by rewrite endswith_app, orb_true_r. }
      unfold PosixPath.dirname, Str.slice_to. subst root.
      rewrite rfind1_ends_with_sep, substring_app_l by done.
      set (root := p +:+ String PosixPath.sep "").
      destruct (String.eqb_spec root "") as [E|_];
        [by destruct (snoc_not_nil p PosixPath.sep "")|].
      destruct (String.eqb_spec root
                  (Str.times PosixPath.sep (String.length root)))
        as [E|E]; simpl.
      * apply rstrip_empty_iff in E. by rewrite E.
      * destruct (String.eqb_spec (Str.rstrip PosixPath.sep root) "")
          as [E'|_]; [|done].
        by apply rstrip_empty_iff in E'.
    + rewrite dirname_join_name, rstrip_snoc by done.
      destruct (String.eqb_spec (p +:+ String x "") "") as [E|_]; [|done].
      by destruct (snoc_not_nil p x "").
Qed.

(** Joining a file name to a directory path and taking the directory
    again gives a path with the same normal form. *)
Lemma normpath_dirname_join root file :
  has_char PosixPath.sep file = false →
  PosixPath.normpath (PosixPath.dirname (PosixPath.join root file))
  = PosixPath.normpath root.
Proof.
  intros Hf. rewrite dirname_join by done.
  destruct (String.eqb_spec (Str.rstrip PosixPath.sep root) "") as [|Hr];
    [done|].
  destruct (rstrip_decomp PosixPath.sep root)
    as (n & Hroot & [? | (s0 & x & Hs & Hx)]); [done|].
  rewrite Hroot at 2. rewrite Hs. symmetry.
  by apply normpath_trailing_slashes.
Qed.

(** A path is its last segment after nothing or after a path that ends
    in a slash. *)
Lemma basename_inv p :
  ∃ s, p = s +:+ PosixPath.basename p ∧ (s = "" ∨ ∃ s', s = s' +:+ "/").
Proof.
  induction p as [|x p (s & Hp & Hs)]; [by exists ""; split; [|left]|].
  unfold PosixPath.basename in *. simpl Str.rfind1.
  destruct (Str.rfind1 PosixPath.sep p) as [|k] eqn:Hk.
  - destruct (Ascii.eqb_spec x PosixPath.sep) as [->|Hx].
    + exists "/". rewrite slice_from_cons, slice_from_0.
      split; [done|]. right. by exists "".
    + exists "". rewrite slice_from_0. split; [done | by left].
  - rewrite slice_from_cons. exists (String x s).
    split; [simpl; by rewrite <-Hp|]. right.
    destruct Hs as [-> | [s' ->]].
    + simpl in Hp. pose proof (basename_has_no_sep p) as Hn.
      unfold PosixPath.basename in Hn. rewrite Hk, <-Hp in Hn.
      apply rfind1_zero in Hn. congruence.
    + by exists (String x s').
Qed.

Lemma new_name_dirname_join index slot root file :
  has_char PosixPath.sep file = false →
  new_name index slot (PosixPath.dirname (PosixPath.join root file))
    (PosixPath.join root file)
  = new_name index slot root file.
Proof.
  intros Hf. unfold new_name.
  by rewrite normpath_dirname_join, basename_of_join.
Qed.

End FolderName.

(** X13. The name of a group member comes from the directory in which the
    traversal found the file: taking the directory of the joined path
    again gives a path with the same normal form, whatever slashes the
    directory path carries at its end, so the name is the one built from
    the directory path and the file name; where the last segment of the
    directory path is a name (not empty, not [.] and not [..]) that
    segment is used as it stands. *)
Theorem group_named_after_folder (index : nat) (slot root file : string) :
  has_char PosixPath.sep file = false →
  PosixPath.normpath (PosixPath.dirname (PosixPath.join root file))
  = PosixPath.normpath root
  ∧ new_name index slot (PosixPath.dirname (PosixPath.join root file))
      (PosixPath.join root file)
    = new_name index slot root file
  ∧ (PosixPath.basename root ≠ "" → PosixPath.basename root ≠ "." →
     PosixPath.basename root ≠ ".." →
     new_name index slot (PosixPath.dirname (PosixPath.join root file))
       (PosixPath.join root file)
     = literal_name index slot root file).
Proof.
  intros Hf.
  split; [by apply normpath_dirname_join|].
  split; [by apply new_name_dirname_join|].
  intros H1 H2 H3. rewrite new_name_dirname_join by done.
  unfold new_name, literal_name.
  destruct (basename_inv root) as (s & Hroot & Hs).
  rewrite Hroot at 1.
  rewrite basename_normpath_name; [done..|apply basename_has_no_sep].
Qed.

Lemma group_named_after_folder_witness :
  has_char PosixPath.sep "l_00099999.jpg" = false
  ∧ new_name 7 "2"
      (PosixPath.dirname (PosixPath.join "f1/left/" "l_00099999.jpg"))
      (PosixPath.join "f1/left/" "l_00099999.jpg")
    = "0007_2_left_l_00099999.jpg"
  ∧ new_name 7 "2"
      (PosixPath.dirname (PosixPath.join "f1/left" "l_00099999.jpg"))
      (PosixPath.join "f1/left" "l_00099999.jpg")
    = "0007_2_left_l_00099999.jpg".
Proof.
  split; [reflexivity|]. split.
  - exact (proj1 (proj2 (group_named_after_folder 7 "2" "f1/left/"
                           "l_00099999.jpg" eq_refl))).
  - apply (proj2 (proj2 (group_named_after_folder 7 "2" "f1/left"
                           "l_00099999.jpg" eq_refl)));
      vm_compute; discriminate.
Defined.

(** X14. How every copy of a run is named. File names hold no separator;
    then each copy is the copy of a file [file] under a directory path
    [root], to the destination folder joined with the name built from the
    number of the group, the slot, [root] and [file]: slot 1 for the
    file of the source folder, slot 2 for a file that the traversal of
    the first folder enumerated in [root], slot 3 for one of the second
    folder. *)
Theorem copy_names (w : World) (src f1 f2 dst s d : string) :
  (∀ root file, In (root, file) (enumerated (walk f1 (folder1_dir w))) →
                has_char PosixPath.sep file = false) →
  (∀ root file, In (root, file) (enumerated (walk f2 (folder2_dir w))) →
                has_char PosixPath.sep file = false) →
  In (s, d) (copies (trace (find_matching_images w src f1 f2 dst))) →
  ∃ index slot root file,
    s = PosixPath.join root file
    ∧ d = PosixPath.join dst (new_name index slot root file)
    ∧ (slot = "1" ∧ root = src
       ∨ slot = "2" ∧ In (root, file) (enumerated (walk f1 (folder1_dir w)))
       ∨ slot = "3" ∧ In (root, file) (enumerated (walk f2 (folder2_dir w)))).
Proof.
  intros Hn1 Hn2
    (es & index & f & id & p1 & l1 & p2 & l2 & _ & _ & _ & H1 & H2 & Hin)
    %run_copy_origin.
  unfold group_copies in Hin.
  destruct Hin as [[= <- <-] | [[= <- <-] | [[= <- <-] | []]]].
  - exists index, "1", src, f. split; [done|]. split; [|by left].
    unfold new_name. by rewrite basename_of_join.
  - destruct (indexed_path_origin _ _ p1 _ H1 ltac:(by left))
      as (root & file & Hin & -> & _).
    exists index, "2", root, file. split; [done|].
    split; [|right; left; done].
    by rewrite (new_name_dirname_join index "2" root file (Hn1 _ _ Hin)).
  - destruct (indexed_path_origin _ _ p2 _ H2 ltac:(by left))
      as (root & file & Hin & -> & _).
    exists index, "3", root, file. split; [done|].
    split; [|right; right; done].
    by rewrite (new_name_dirname_join index "3" root file (Hn2 _ _ Hin)).
Qed.

Lemma copy_names_witness :
  In ("f2/right/deep/r_00055555.jpg", "out/0000_3_deep_r_00055555.jpg")
     (copies (trace (find_matching_images Example.album
                       "data/src/" "f1" "f2/" "out")))
  ∧ ∃ index slot root file,
      "f2/right/deep/r_00055555.jpg" = PosixPath.join root file
      ∧ "out/0000_3_deep_r_00055555.jpg"
        = PosixPath.join "out" (new_name index slot root file).
Proof.
  assert (In ("f2/right/deep/r_00055555.jpg", "out/0000_3_deep_r_00055555.jpg")
            (copies (trace (find_matching_images Example.album
                              "data/src/" "f1" "f2/" "out")))) as Hin
    by (vm_compute; tauto).
  split; [exact Hin|].
  assert (∀ root file,
            In (root, file)
               (enumerated (walk "f1" (folder1_dir Example.album))) →
            has_char PosixPath.sep file = false) as Hn1.
  { intros root file H. vm_compute in H.
    destruct H as [[= <- <-] | [[= <- <-] | [[= <- <-] | []]]];
      reflexivity. }
  assert (∀ root file,
            In (root, file)
               (enumerated (walk "f2/" (folder2_dir Example.album))) →
            has_char PosixPath.sep file = false) as Hn2.
  { intros root file H. vm_compute in H.
    destruct H as [[= <- <-] | []]; reflexivity. }
  destruct (copy_names _ _ _ _ _ _ _ Hn1 Hn2 Hin)
    as (index & slot & root & file & Hs & Hd & _).
  exists index, slot, root, file. exact (conj Hs Hd).
Defined.
